(** * The build pipeline of drone-exec ([build/pipeline.go])

    A shallow embedding of [Pipeline] and of the goroutines it starts.

    The pipeline is a record of its fields.  Every [go func() { ... }()] of
    the source becomes a [Task] in a pool.  A task runs one piece of its body
    at a time, from one blocking operation (a call into the container engine,
    a channel send) to the next, and the scheduler interleaves the pieces of
    all tasks freely; a piece is atomic, as under the single-flight
    discipline the source relies on.  [Teardown], which the controller calls
    when nothing else runs, is one piece.

    The container engine is the environment: what it answers to a call is
    supplied with the scheduling decision, as a [Reply], so a theorem
    quantified over replies holds for every engine.  The calls into the
    engine are recorded in [calls], in the order in which they are made.

    A channel is the list of the values delivered on it and a flag for
    [close].  A send is a piece of its own: the scheduler runs it when the
    receiver takes the value. *)

From Stdlib Require Import ZArith String List Lia SpecFloat.
From stdpp Require Import base option list strings.

Open Scope string_scope.
Open Scope list_scope.

(** ** Data *)

(** Modelled from the spec: the step specification [yaml.Container] is
    declared in package [yaml]; the pipeline reads its [Name] and its
    [Detached] flag only. *)
Record yaml_Container := mkContainer {
  Name : string;
  Image : string;
  Detached : bool
}.

(** Modelled from the spec: the terminal state returned by
    [Engine.ContainerWait], declared next to the [Engine] interface. *)
Record State := mkState {
  ExitCode : Z;
  OOMKilled : bool
}.

(** Modelled from the spec: the values of Go's [error] that the pipeline
    builds ([ErrTerm], [&OomError{name}], [&ExitError{name, code}], declared
    in the package's error file) and the errors of the engine, which the
    pipeline never inspects.  The nil error is [None : option error]. *)
Inductive error :=
| ErrTerm
| OomError (name : string)
| ExitError (name : string) (code : Z)
| EngineError (msg : string).

#[global] Instance error_eq_dec : EqDecision error.
Proof. solve_decision. Defined.

(** Modelled from the spec: [Line], a line of output as sent on the [pipe]
    channel, is declared in another file of the package; its fields are
    those of the literal in [exec]. *)
Record Line := mkLine {
  Proc : string;
  Time : Z;
  Pos : Z;
  Out : string
}.

(** [element]: a link of the list.  A [*element] is an index into the
    [nodes] of the pipeline, [None] is the nil pointer. *)
Record element := mkElement {
  el_Container : yaml_Container;
  el_next : option nat
}.

(** A channel: the values delivered so far, oldest first, and whether
    [close] was called. *)
Record chan (A : Type) := mkChan {
  sent : list A;
  closed : bool
}.
Arguments mkChan {A} _ _.
Arguments sent {A} _.
Arguments closed {A} _.

Definition make {A} : chan A := mkChan [] false.
Definition send {A} (v : A) (c : chan A) : chan A := mkChan (sent c ++ [v]) (closed c).
Definition close {A} (c : chan A) : chan A := mkChan (sent c) true.

(** Go's [int] on a 64-bit platform. *)
Definition int_wrap (z : Z) : Z := (z + 2 ^ 63) mod 2 ^ 64 - 2 ^ 63.
Definition int_incr (z : Z) : Z := int_wrap (z + 1).

(** Go's [float64] is IEEE 754 binary64: 53 bits of precision, rounding to
    nearest, ties to even.  The operations are those of the specification of
    floating-point arithmetic of the Standard Library. *)
Definition float64 := spec_float.

(** [float64(z)] for an integer [z] *)
Definition float64_of_int64 (z : Z) : float64 := binary_normalize 53 1024 z 0 false.

Definition float64_add : float64 -> float64 -> float64 := SFadd 53 1024.
Definition float64_div : float64 -> float64 -> float64 := SFdiv 53 1024.

(** [int64(f)]: the fraction is discarded.  A value outside [int64] is what
    the conversion gives on amd64. *)
Definition int64_of_float64 (f : float64) : Z :=
  match f with
  | S754_zero _ => 0%Z
  | S754_finite s m e =>
      let z := cond_Zopp s (Z.shiftl (Zpos m) e) in
      if decide (- 2 ^ 63 <= z < 2 ^ 63)%Z then z else (- 2 ^ 63)%Z
  | _ => (- 2 ^ 63)%Z
  end.

(** [d.Seconds()] of package [time], for a duration [d] in nanoseconds:
    [sec := d / Second; nsec := d % Second;
     return float64(sec) + float64(nsec)/1e9]. *)
Definition Seconds (d : Z) : float64 :=
  let sec := Z.quot d 1000000000 in
  let nsec := Z.rem d 1000000000 in
  float64_add (float64_of_int64 sec)
    (float64_div (float64_of_int64 nsec) (float64_of_int64 1000000000)).

(** [int64(d.Seconds())] *)
Definition Seconds_int64 (d : Z) : Z := int64_of_float64 (Seconds d).

(** [time.Since(now)] when the wall clock reads [t], in nanoseconds.  [now]
    went through [UTC()], which drops the monotonic reading, so the
    difference is that of the wall clocks and can be negative; it saturates at
    the ends of [int64], as [Time.Sub] does. *)
Definition Since (now t : Z) : Z :=
  if decide (t - now < - 2 ^ 63)%Z then (- 2 ^ 63)%Z
  else if decide (2 ^ 63 - 1 < t - now)%Z then (2 ^ 63 - 1)%Z
  else (t - now)%Z.

(** ** Goroutines *)

(** The goroutines of the source, each at one of its blocking points. *)
Inductive Task :=
| TExec
    (* the goroutine of [Exec], not started *)
| TExecStart (c : yaml_Container)
    (* the goroutine of [Exec], inside [exec], blocked in [ContainerStart(c)] *)
| TExecWait (c : yaml_Container) (name : string)
    (* the goroutine of [Exec], inside [exec], blocked in [ContainerWait(name)] *)
| TLogs (c : yaml_Container) (name : string)
    (* the goroutine of [exec], about to call [ContainerLogs(name)] *)
| TScan (c : yaml_Container) (name : string) (now : Z) (num : Z)
    (* the same goroutine at [scanner.Scan()] *)
| TSendLine (c : yaml_Container) (name : string) (now : Z) (num : Z) (l : Line)
    (* the same goroutine, blocked in [p.pipe <- l] *)
| TStepNext
    (* the goroutine of the else branch of [step], not started *)
| TSendNext
    (* the same goroutine, blocked in [p.next <- nil] *)
| TSendDone (e : option error)
    (* a goroutine blocked in [p.done <- e] *)
| TDone.
    (* a goroutine that returned *)

(** Calls into the engine.  [ContainerWait] is recorded when the call is
    made: it may never return. *)
Inductive Call :=
| ContainerStart (c : yaml_Container) (name : string) (err : option error)
| ContainerLogs (name : string) (rerr : option error)
| ContainerWait (name : string)
| ContainerRemove (name : string) (err : option error)
| rc_Close (name : string).

(** ** The pipeline *)

Record Pipeline := mkPipeline {
  nodes : list element;
  head : option nat;
  tail : option nat;
  pipe : chan Line;
  next : chan (option error);
  done : chan (option error);
  err : option error;
  containers : list string;
  tasks : list Task;
  calls : list Call
}.

Definition set_head (h : option nat) (p : Pipeline) : Pipeline :=
  mkPipeline (nodes p) h (tail p) (pipe p) (next p) (done p) (err p)
    (containers p) (tasks p) (calls p).
Definition set_pipe (c : chan Line) (p : Pipeline) : Pipeline :=
  mkPipeline (nodes p) (head p) (tail p) c (next p) (done p) (err p)
    (containers p) (tasks p) (calls p).
Definition set_next (c : chan (option error)) (p : Pipeline) : Pipeline :=
  mkPipeline (nodes p) (head p) (tail p) (pipe p) c (done p) (err p)
    (containers p) (tasks p) (calls p).
Definition set_done (c : chan (option error)) (p : Pipeline) : Pipeline :=
  mkPipeline (nodes p) (head p) (tail p) (pipe p) (next p) c (err p)
    (containers p) (tasks p) (calls p).
Definition set_err (e : option error) (p : Pipeline) : Pipeline :=
  mkPipeline (nodes p) (head p) (tail p) (pipe p) (next p) (done p) e
    (containers p) (tasks p) (calls p).
Definition set_containers (l : list string) (p : Pipeline) : Pipeline :=
  mkPipeline (nodes p) (head p) (tail p) (pipe p) (next p) (done p) (err p)
    l (tasks p) (calls p).
Definition set_tasks (l : list Task) (p : Pipeline) : Pipeline :=
  mkPipeline (nodes p) (head p) (tail p) (pipe p) (next p) (done p) (err p)
    (containers p) l (calls p).
Definition set_calls (l : list Call) (p : Pipeline) : Pipeline :=
  mkPipeline (nodes p) (head p) (tail p) (pipe p) (next p) (done p) (err p)
    (containers p) (tasks p) l.

(** [go func() { ... }()] *)
Definition spawn (t : Task) (p : Pipeline) : Pipeline :=
  set_tasks (tasks p ++ [t]) p.

(** goroutine [tid] moves on to [t] *)
Definition set_task (tid : nat) (t : Task) (p : Pipeline) : Pipeline :=
  set_tasks (<[tid := t]> (tasks p)) p.

Definition call (c : Call) (p : Pipeline) : Pipeline :=
  set_calls (calls p ++ [c]) p.

(** [*p.head]; [None] when [p.head] is nil. *)
Definition deref (p : Pipeline) : option element :=
  match head p with
  | Some a => nodes p !! a
  | None => None
  end.

(** What an operation does: it completes, it panics (nil dereference, send
    on or close of a closed channel), or the scheduling decision does not
    apply to the state. *)
Inductive outcome :=
| Ok (p : Pipeline)
| Panic
| Disabled.

(** ** The methods of [Pipeline] *)

Definition Done (p : Pipeline) : chan (option error) := done p.
Definition Err (p : Pipeline) : option error := err p.
Definition Next (p : Pipeline) : chan (option error) := next p.
Definition Pipe (p : Pipeline) : chan Line := pipe p.
Definition Head (p : Pipeline) : option yaml_Container := el_Container <$> deref p.

(** [step] *)
Definition step (p : Pipeline) : Pipeline :=
  if decide (head p = tail p)
  then spawn (TSendDone None) p
  else spawn TStepNext p.

(** [Exec], [Skip], [Stop] *)
Definition Exec (p : Pipeline) : Pipeline := spawn TExec p.
Definition Skip (p : Pipeline) : Pipeline := step p.
Definition Stop (p : Pipeline) : Pipeline := spawn (TSendDone (Some ErrTerm)) p.

(** [Teardown]; [rm i] is what the engine answers to the [i]-th
    [ContainerRemove] of the loop. *)
Fixpoint remove_all (rm : nat -> option error) (i : nat) (ids : list string)
    (p : Pipeline) : Pipeline :=
  match ids with
  | [] => p
  | id :: ids' => remove_all rm (S i) ids' (call (ContainerRemove id (rm i)) p)
  end.

Definition Teardown (rm : nat -> option error) (p : Pipeline) : outcome :=
  let p := remove_all rm 0 (containers p) p in
  if closed (next p) then Panic else
  let p := set_next (close (next p)) p in
  if closed (done p) then Panic else
  Ok (set_done (close (done p)) p).

(** [exec], up to the blocking [ContainerWait]: [name] and [err] are what
    [ContainerStart] returned. *)
Inductive exec_result :=
| Returned (p : Pipeline) (err : option error)
| Blocked (p : Pipeline) (name : string).

Definition exec_start (c : yaml_Container) (name : string) (err : option error)
    (p : Pipeline) : exec_result :=
  let p := call (ContainerStart c name err) p in
  match err with
  | Some e => Returned p (Some e)
  | None =>
      let p := set_containers (containers p ++ [name]) p in
      let p := spawn (TLogs c name) p in
      if Detached c then Returned p None
      else Blocked (call (ContainerWait name) p) name
  end.

(** [exec], from the return of [ContainerWait] with [state] and [err];
    [None] is the panic of reading a nil [state]. *)
Definition exec_wait (c : yaml_Container) (state : option State)
    (err : option error) : option (option error) :=
  match err with
  | Some e => Some (Some e)
  | None =>
      match state with
      | None => None
      | Some st =>
          if OOMKilled st then Some (Some (OomError (Name c)))
          else if decide (ExitCode st ≠ 0%Z)
               then Some (Some (ExitError (Name c) (ExitCode st)))
               else Some None
      end
  end.

(** The goroutine of [Exec] once [exec] returned [err]. *)
Definition Exec_return (e : option error) (p : Pipeline) : Pipeline :=
  step (match e with
        | Some e' => set_err (Some e') p
        | None => p
        end).

(** ** Scheduling *)

(** What the environment supplies when a goroutine runs. *)
Inductive Reply :=
| RNone
| RStart (name : string) (err : option error)
| RWait (state : option State) (err : option error)
| RLogs (rerr : option error) (now : Z)
| RScan (text : option string) (t : Z).

(** Goroutine [tid] runs up to its next blocking point. *)
Definition run (tid : nat) (r : Reply) (p : Pipeline) : outcome :=
  match tasks p !! tid with
  | None => Disabled
  | Some t =>
      match t, r with
      | TExec, RNone =>
          match deref p with
          | None => Panic
          | Some el => Ok (set_task tid (TExecStart (el_Container el)) p)
          end
      | TExecStart c, RStart name err =>
          match exec_start c name err p with
          | Returned p' e => Ok (set_task tid TDone (Exec_return e p'))
          | Blocked p' name' => Ok (set_task tid (TExecWait c name') p')
          end
      | TExecWait c name, RWait state err =>
          match exec_wait c state err with
          | None => Panic
          | Some e => Ok (set_task tid TDone (Exec_return e p))
          end
      | TLogs c name, RLogs rerr now =>
          let p := call (ContainerLogs name rerr) p in
          match rerr with
          | Some _ => Ok (set_task tid TDone p)
          | None => Ok (set_task tid (TScan c name now 0) p)
          end
      | TScan c name now num, RScan text t =>
          match text with
          | None => Ok (set_task tid TDone (call (rc_Close name) p))
          | Some s =>
              let l := mkLine (Name c) (Seconds_int64 (Since now t)) num s in
              Ok (set_task tid (TSendLine c name now num l) p)
          end
      | TSendLine c name now num l, RNone =>
          if closed (pipe p) then Panic
          else Ok (set_task tid (TScan c name now (int_incr num))
                     (set_pipe (send l (pipe p)) p))
      | TStepNext, RNone =>
          match deref p with
          | None => Panic
          | Some el => Ok (set_task tid TSendNext (set_head (el_next el) p))
          end
      | TSendNext, RNone =>
          if closed (next p) then Panic
          else Ok (set_task tid TDone (set_next (send None (next p)) p))
      | TSendDone e, RNone =>
          if closed (done p) then Panic
          else Ok (set_task tid TDone (set_done (send e (done p)) p))
      | _, _ => Disabled
      end
  end.

(** A scheduling decision: the controller calls a method, or a goroutine
    runs. *)
Inductive Action :=
| CallExec
| CallSkip
| CallStop
| CallTeardown (rm : nat -> option error)
| Go (tid : nat) (r : Reply).

Definition act (a : Action) (p : Pipeline) : outcome :=
  match a with
  | CallExec => Ok (Exec p)
  | CallSkip => Ok (Skip p)
  | CallStop => Ok (Stop p)
  | CallTeardown rm => Teardown rm p
  | Go tid r => run tid r p
  end.

Fixpoint acts (l : list Action) (p : Pipeline) : outcome :=
  match l with
  | [] => Ok p
  | a :: l' =>
      match act a p with
      | Ok p' => acts l' p'
      | o => o
      end
  end.

(** Modelled from the spec: [Load], the constructor, is in another file of
    the package.  It links one node per step in order; [head] is the first
    node and [tail] the last. *)
Definition link (n i : nat) (c : yaml_Container) : element :=
  mkElement c (if decide (S i < n) then Some (S i) else None).

Definition Load (steps : list yaml_Container) : Pipeline :=
  let n := length steps in
  mkPipeline (imap (link n) steps)
    (if decide (0 < n) then Some 0 else None)
    (if decide (0 < n) then Some (n - 1) else None)
    make make make None [] [] [].

(** What an observer reads in the state an operation leaves. *)
Definition observe {A} (f : Pipeline -> A) (o : outcome) : option A :=
  match o with
  | Ok p => Some (f p)
  | _ => None
  end.

(** ** The goroutines as a step relation *)

(** The steps of the goroutines as a relation: one rule for each piece of
    code between two blocking points. *)
Inductive goes (p : Pipeline) (tid : nat) : Reply -> Pipeline -> Prop :=
| go_exec_begin el :
    tasks p !! tid = Some TExec ->
    deref p = Some el ->
    goes p tid RNone (set_task tid (TExecStart (el_Container el)) p)
| go_exec_returned c name e q r :
    tasks p !! tid = Some (TExecStart c) ->
    exec_start c name e p = Returned q r ->
    goes p tid (RStart name e) (set_task tid TDone (Exec_return r q))
| go_exec_blocked c name e q name' :
    tasks p !! tid = Some (TExecStart c) ->
    exec_start c name e p = Blocked q name' ->
    goes p tid (RStart name e) (set_task tid (TExecWait c name') q)
| go_exec_resumed c name state e r :
    tasks p !! tid = Some (TExecWait c name) ->
    exec_wait c state e = Some r ->
    goes p tid (RWait state e) (set_task tid TDone (Exec_return r p))
| go_logs_failed c name e now :
    tasks p !! tid = Some (TLogs c name) ->
    goes p tid (RLogs (Some e) now)
      (set_task tid TDone (call (ContainerLogs name (Some e)) p))
| go_logs_opened c name now :
    tasks p !! tid = Some (TLogs c name) ->
    goes p tid (RLogs None now)
      (set_task tid (TScan c name now 0) (call (ContainerLogs name None) p))
| go_scan_end c name now num t :
    tasks p !! tid = Some (TScan c name now num) ->
    goes p tid (RScan None t) (set_task tid TDone (call (rc_Close name) p))
| go_scan_line c name now num s t :
    tasks p !! tid = Some (TScan c name now num) ->
    goes p tid (RScan (Some s) t)
      (set_task tid
         (TSendLine c name now num
            (mkLine (Name c) (Seconds_int64 (Since now t)) num s)) p)
| go_send_line c name now num l :
    tasks p !! tid = Some (TSendLine c name now num l) ->
    closed (pipe p) = false ->
    goes p tid RNone
      (set_task tid (TScan c name now (int_incr num)) (set_pipe (send l (pipe p)) p))
| go_step_next el :
    tasks p !! tid = Some TStepNext ->
    deref p = Some el ->
    goes p tid RNone (set_task tid TSendNext (set_head (el_next el) p))
| go_send_next :
    tasks p !! tid = Some TSendNext ->
    closed (next p) = false ->
    goes p tid RNone (set_task tid TDone (set_next (send None (next p)) p))
| go_send_done e :
    tasks p !! tid = Some (TSendDone e) ->
    closed (done p) = false ->
    goes p tid RNone (set_task tid TDone (set_done (send e (done p)) p)).

(** ** What the theorems observe *)

(** The state [exec] leaves when [ContainerStart] succeeded. *)
Definition started_by (c : yaml_Container) (name : string) (p : Pipeline) : Pipeline :=
  spawn (TLogs c name)
    (set_containers (containers p ++ [name])
       (call (ContainerStart c name None) p)).

(** The goroutine started by the advance transition. *)
Definition advance_task (p : Pipeline) : Task :=
  if decide (head p = tail p) then TSendDone None else TStepNext.

Definition removals (rm : nat -> option error) (ids : list string) : list Call :=
  imap (fun k id => ContainerRemove id (rm k)) ids.

Definition torn_down (rm : nat -> option error) (p : Pipeline) : Pipeline :=
  set_done (close (done p))
    (set_next (close (next p))
       (set_calls (calls p ++ removals rm (containers p)) p)).

(** The identifiers returned by successful [ContainerStart] calls, and the
    identifiers passed to [ContainerRemove], in the order of the calls. *)
Definition started (cs : list Call) : list string :=
  omap (fun c => match c with
                 | ContainerStart _ name None => Some name
                 | _ => None
                 end) cs.

Definition removed (cs : list Call) : list string :=
  omap (fun c => match c with
                 | ContainerRemove id _ => Some id
                 | _ => None
                 end) cs.

(** The started-container list is the list of the identifiers that
    successful starts returned, and before [Teardown] nothing was removed. *)
Definition accounted (p : Pipeline) : Prop :=
  containers p = started (calls p) /\
  (closed (next p) = false -> removed (calls p) = []).

Definition exec_pipeline (r : exec_result) : Pipeline :=
  match r with
  | Returned p _ => p
  | Blocked p _ => p
  end.

(** A goroutine of [Exec] that has not returned. *)
Definition in_flight (t : Task) : bool :=
  match t with
  | TExec | TExecStart _ | TExecWait _ _ => true
  | _ => false
  end.

(** No step is executing. *)
Definition settled (p : Pipeline) : Prop :=
  Forall (fun t => in_flight t = false) (tasks p).

(** The identifiers passed to [ContainerWait]. *)
Definition waits (cs : list Call) : list string :=
  omap (fun c => match c with
                 | ContainerWait name => Some name
                 | _ => None
                 end) cs.

(** The steps passed to [ContainerStart]. *)
Definition starts (cs : list Call) : list yaml_Container :=
  omap (fun c => match c with
                 | ContainerStart c' _ _ => Some c'
                 | _ => None
                 end) cs.

Definition not_Exec (a : Action) : Prop := a <> CallExec.

(** What a goroutine blocked in [ContainerWait] waits for: the container of
    its own step, which is not detached, under the identifier that
    [ContainerStart] returned for this step. *)
Definition awaits (cs : list Call) (t : Task) : Prop :=
  match t with
  | TExecWait c name => Detached c = false /\ ContainerStart c name None ∈ cs
  | _ => True
  end.

(** Each call of [ContainerWait] follows a call of [ContainerStart] that
    returned its identifier for a step that is not detached. *)
Definition own_waits (cs : list Call) : Prop :=
  forall i name, cs !! i = Some (ContainerWait name) ->
    exists c, Detached c = false /\ ContainerStart c name None ∈ take i cs.

Definition waits_own (p : Pipeline) : Prop :=
  Forall (awaits (calls p)) (tasks p) /\ own_waits (calls p).

(** The decision [a] resolves the step [c] that goroutine [tid] executes,
    with the result [r]: [ContainerStart] fails with [r], or the step is not
    detached, [ContainerWait] returns and [exec] classifies what it returned
    as [r]. *)
Definition resolves (a : Action) (tid : nat) (c : yaml_Container) (p : Pipeline)
    (r : option error) : Prop :=
  match a with
  | Go tid' (RStart _ (Some e)) =>
      tid' = tid /\ tasks p !! tid = Some (TExecStart c) /\ r = Some e
  | Go tid' (RWait state e) =>
      tid' = tid /\ Detached c = false /\
      (exists name, tasks p !! tid = Some (TExecWait c name)) /\
      exec_wait c state e = Some r
  | _ => False
  end.

(** What the pipeline delivers on [done]: nil, or [ErrTerm] after [Stop]. *)
Definition clean (v : option error) : bool :=
  match v with
  | None | Some ErrTerm => true
  | _ => false
  end.

Definition sends_clean (t : Task) : bool :=
  match t with
  | TSendDone e => clean e
  | _ => true
  end.

(** Only nil and [ErrTerm] were and will be delivered on [done], only nil on
    [next]. *)
Definition signals_clean (p : Pipeline) : Prop :=
  Forall (fun v => clean v = true) (sent (done p)) /\
  Forall (fun v => v = None) (sent (next p)) /\
  Forall (fun t => sends_clean t = true) (tasks p).

(** The goroutines of [exec] that forward the log. *)
Definition forwarding (t : Task) : bool :=
  match t with
  | TLogs _ _ | TScan _ _ _ _ | TSendLine _ _ _ _ _ => true
  | _ => false
  end.

(** What the controller and the next goroutines see of a resolved step:
    the stored error, the head, the signals, and the goroutine that the
    advance transition started. *)
Definition resolved (p : Pipeline) :=
  (Err p, head p, next p, done p, containers p, last (tasks p)).


(** The forwarding goroutine [tid] reads the lines [ls] and sends a record
    after each. *)
Fixpoint scans (tid : nat) (ls : list (string * Z)) : list Action :=
  match ls with
  | [] => []
  | (s, t) :: ls' => Go tid (RScan (Some s) t) :: Go tid RNone :: scans tid ls'
  end.

(** The scheduling decisions that run goroutine [tid]. *)
Definition own (tid : nat) (a : Action) : bool :=
  match a with
  | Go tid' _ => Nat.eqb tid' tid
  | _ => false
  end.


(** ** Three steps, as a running example *)

Definition stepA : yaml_Container := mkContainer "A" "golang" false.
Definition stepB : yaml_Container := mkContainer "B" "redis" true.
Definition stepC : yaml_Container := mkContainer "C" "golang" false.
Definition abc : Pipeline := Load [stepA; stepB; stepC].

Definition exited (code : Z) : Reply := RWait (Some (mkState code false)) None.
Definition oom_killed : Reply := RWait (Some (mkState 137 true)) None.

(** [A] runs and exits 0; the pipeline advances to [B]. *)
Definition run_A : list Action :=
  [CallExec; Go 0 RNone; Go 0 (RStart "idA" None); Go 0 (exited 0); Go 2 RNone; Go 2 RNone].

(** [A] is blocked in [ContainerWait]. *)
Definition A_blocked : list Action := [CallExec; Go 0 RNone; Go 0 (RStart "idA" None)].

Definition blocked_A : Pipeline :=
  Eval vm_compute in
    match acts A_blocked abc with
    | Ok p => p
    | _ => abc
    end.

(** [A] exits 0, [B] is detached, [C] exits 1, and nil is delivered on
    [done]. *)
Definition run_ABC : list Action :=
  run_A ++
  [CallExec; Go 3 RNone; Go 3 (RStart "idB" None); Go 5 RNone; Go 5 RNone;
   CallExec; Go 6 RNone; Go 6 (RStart "idC" None); Go 6 (exited 1); Go 8 RNone].

Definition finished_ABC : Pipeline :=
  Eval vm_compute in
    match acts run_ABC abc with
    | Ok p => p
    | _ => abc
    end.

(** The removal of ["idA"] fails. *)
Definition rm_fails_first (i : nat) : option error :=
  match i with
  | 0 => Some (EngineError "no such container")
  | _ => None
  end.

(** A pipeline of one step: its head is its tail. *)
Definition only_C : Pipeline := Load [stepC].

(** [A] exited 1, the controller skipped [B], and [C] is blocked in
    [ContainerWait]. *)
Definition C_blocked_after_failure : Pipeline :=
  Eval vm_compute in
    match acts [CallExec; Go 0 RNone; Go 0 (RStart "idA" None); Go 0 (exited 1);
                Go 2 RNone; Go 2 RNone;
                CallSkip; Go 3 RNone; Go 3 RNone;
                CallExec; Go 4 RNone; Go 4 (RStart "idC" None)] abc with
    | Ok p => p
    | _ => abc
    end.

(** [B], detached, is being started. *)
Definition B_called : Pipeline :=
  Eval vm_compute in
    match acts (run_A ++ [CallExec; Go 3 RNone]) abc with
    | Ok p => p
    | _ => abc
    end.

(** After [B], detached, returned: its log is read while the pipeline
    advances and [C] runs and exits 1. *)
Definition sidecar : list Action :=
  [Go 4 (RLogs None 0); Go 5 RNone; Go 5 RNone;
   CallExec; Go 6 RNone; Go 6 (RStart "idC" None);
   Go 4 (RScan (Some "ready") 1500000000); Go 4 RNone;
   Go 6 (exited 1); Go 8 RNone; Go 4 (RScan None 2000000000)].

(** ** The wall clock *)

(** A schedule against the wall clock: each decision with the instant, in
    nanoseconds, at which it is taken. *)
Definition Timed := list (Z * Action).

(** The forwarding goroutine reads the clock in the piece that takes the
    answer of [ContainerLogs] ([time.Now()]) and in the piece that takes a
    line of the scanner ([time.Since(now)]): what it reads is the instant of
    the piece. *)
Definition on_clock (x : Z * Action) : bool :=
  match x with
  | (i, Go _ (RLogs _ now)) => bool_decide (now = i)
  | (i, Go _ (RScan _ t)) => bool_decide (t = i)
  | _ => true
  end.

(** The instant at which [ContainerStart] returned the identifier [name]:
    the step is started. *)
Fixpoint started_at (name : string) (l : Timed) : option Z :=
  match l with
  | [] => None
  | (i, Go _ (RStart name' None)) :: l' =>
      if decide (name' = name) then Some i else started_at name l'
  | _ :: l' => started_at name l'
  end.

(** Modelled from the spec's words, to compare: the seconds elapsed at [t]
    since the step started, truncated. *)
Definition elapsed_since_start (start t : Z) : Z := Z.quot (t - start) 1000000000.

(** [A] is started at instant 0; the engine opens its log 3 s later, and
    the first line comes half a second after that. *)
Definition slow_logs : Timed :=
  [(0, CallExec); (0, Go 0 RNone); (0, Go 0 (RStart "idA" None));
   (3000000000, Go 1 (RLogs None 3000000000));
   (3500000000, Go 1 (RScan (Some "hello") 3500000000));
   (3500000000, Go 1 RNone)]%Z.

(** ** The other methods of [Pipeline] *)

(** [Tail]; [None] is the panic of reading a nil [tail]. *)
Definition Tail (p : Pipeline) : option yaml_Container :=
  match tail p with
  | Some a => el_Container <$> nodes p !! a
  | None => None
  end.

(** [Setup] *)
Definition Setup (p : Pipeline) : option error := None.

(** [close], the method: it starts the goroutine that sends [e] on [done].
    Nothing in the file calls it. *)
Definition Pipeline_close (e : option error) (p : Pipeline) : Pipeline :=
  spawn (TSendDone e) p.

(** ** Driving the pipeline *)

(** The steps from [h] to the tail [t], in the order of the links: the
    nodes before the last are not [t], the last is. *)
Fixpoint path (ns : list element) (h : option nat) (cs : list yaml_Container)
    (t : option nat) : Prop :=
  match cs with
  | [] => False
  | c :: cs' =>
      exists a el, h = Some a /\ ns !! a = Some el /\ el_Container el = c /\
        match cs' with
        | [] => h = t
        | _ :: _ => h <> t /\ path ns (el_next el) cs' t
        end
  end.

(** What the controller does with a step and what the engine answers: the
    step is skipped, its start fails, or it is started and, if it is not
    detached, waited for. *)
Inductive Cycle :=
| Skipped
| StartFails (name : string) (e : error)
| Runs (name : string) (st : State) (e : option error).

(** The goroutine of the advance transition, [n], runs to its end. *)
Definition advance (n : nat) (last : bool) : list Action :=
  if last then [Go n RNone] else [Go n RNone; Go n RNone].

(** The call of the controller on step [c] and the goroutine of [Exec] to
    its return, when the pool has [n] goroutines. *)
Definition cycle_call (k : Cycle) (c : yaml_Container) (n : nat) : list Action :=
  match k with
  | Skipped => [CallSkip]
  | StartFails name e => [CallExec; Go n RNone; Go n (RStart name (Some e))]
  | Runs name st e =>
      [CallExec; Go n RNone; Go n (RStart name None)]
        ++ (if Detached c then [] else [Go n (RWait (Some st) e)])
  end.

(** The goroutines a cycle starts: that of [Exec], the forwarding one, and
    last that of the advance. *)
Definition spawned (k : Cycle) : nat :=
  match k with
  | Skipped => 1
  | StartFails _ _ => 2
  | Runs _ _ _ => 3
  end.

(** One cycle of the controller, single-flight: the call, then the advance
    to its end.  The forwarding goroutine is left where it is. *)
Definition cycle_acts (k : Cycle) (c : yaml_Container) (n : nat) (last : bool)
    : list Action :=
  cycle_call k c n ++ advance (n + spawned k - 1) last.

(** What [exec] returns in a cycle. *)
Definition cycle_result (k : Cycle) (c : yaml_Container) : option error :=
  match k with
  | Skipped => None
  | StartFails _ e => Some e
  | Runs _ st e =>
      if Detached c then None
      else match exec_wait c (Some st) e with
           | Some r => r
           | None => None
           end
  end.

Definition cycle_started (k : Cycle) : list string :=
  match k with
  | Runs name _ _ => [name]
  | _ => []
  end.

(** The cycles [ks] on the steps [cs], none of them the last. *)
Fixpoint drive (n : nat) (ks : list Cycle) (cs : list yaml_Container)
    : list Action :=
  match ks, cs with
  | k :: ks', c :: cs' => cycle_acts k c n false ++ drive (n + spawned k) ks' cs'
  | _, _ => []
  end.

(** The cycles [ks] on all the steps [cs]: the last ends on [done]. *)
Fixpoint drive_all (n : nat) (ks : list Cycle) (cs : list yaml_Container)
    : list Action :=
  match ks, cs with
  | k :: ks', c :: cs' =>
      match cs' with
      | [] => cycle_acts k c n true
      | _ :: _ => cycle_acts k c n false ++ drive_all (n + spawned k) ks' cs'
      end
  | _, _ => []
  end.

Fixpoint pool_after (n : nat) (ks : list Cycle) : nat :=
  match ks with
  | [] => n
  | k :: ks' => pool_after (n + spawned k) ks'
  end.

(** The stored error after a result of [exec]. *)
Definition kept (acc r : option error) : option error :=
  match r with
  | Some e => Some e
  | None => acc
  end.

Fixpoint err_after (acc : option error) (ks : list Cycle)
    (cs : list yaml_Container) : option error :=
  match ks, cs with
  | k :: ks', c :: cs' => err_after (kept acc (cycle_result k c)) ks' cs'
  | _, _ => acc
  end.

Fixpoint started_in (ks : list Cycle) : list string :=
  match ks with
  | [] => []
  | k :: ks' => cycle_started k ++ started_in ks'
  end.

(** The cycles [ks], all on the tail [c]. *)
Fixpoint stay (n : nat) (ks : list Cycle) (c : yaml_Container) : list Action :=
  match ks with
  | [] => []
  | k :: ks' => cycle_acts k c n true ++ stay (n + spawned k) ks' c
  end.

Fixpoint err_stay (acc : option error) (ks : list Cycle) (c : yaml_Container)
    : option error :=
  match ks with
  | [] => acc
  | k :: ks' => err_stay (kept acc (cycle_result k c)) ks' c
  end.

(** The three steps of the running example, each started; [C] exits 1. *)
Definition cycles_ABC : list Cycle :=
  [Runs "idA" (mkState 0 false) None; Runs "idB" (mkState 0 false) None;
   Runs "idC" (mkState 1 false) None].

(** The state in which the goroutine of [Exec] has returned, or [Skip]. *)
Definition returned_from (k : Cycle) (c : yaml_Container) (p : Pipeline) : Pipeline :=
  match k with
  | Skipped => spawn (advance_task p) p
  | StartFails name e =>
      set_tasks (tasks p ++ [TDone; advance_task p])
        (set_err (Some e) (call (ContainerStart c name (Some e)) p))
  | Runs name st e =>
      set_tasks (tasks p ++ [TDone; TLogs c name; advance_task p])
        (set_err (kept (err p) (cycle_result k c))
           (set_containers (containers p ++ [name])
              (set_calls
                 (calls p ++ ContainerStart c name None
                    :: (if Detached c then [] else [ContainerWait name])) p)))
  end.

(** ** Counting signals and calls *)

(** A goroutine that owes a signal on [next] or [done]. *)
Definition owes (t : Task) : nat :=
  match t with
  | TExec | TExecStart _ | TExecWait _ _ | TStepNext | TSendNext | TSendDone _ => 1
  | _ => 0
  end.

(** The signals delivered and those still owed. *)
Definition signals (p : Pipeline) : nat :=
  length (sent (next p)) + length (sent (done p)) + sum_list_with owes (tasks p).

(** The calls of the controller that ask for a signal. *)
Definition asks (a : Action) : nat :=
  match a with
  | CallExec | CallSkip | CallStop => 1
  | _ => 0
  end.





(** ** The order of the calls into the engine *)

(** What must have happened before a call: the container was started, or,
    for [rc.Close], its log was opened. *)
Definition needs (c : Call) (before : list Call) : Prop :=
  match c with
  | ContainerStart _ _ _ => True
  | ContainerLogs name _ | ContainerWait name | ContainerRemove name _ =>
      name ∈ started before
  | rc_Close name => ContainerLogs name None ∈ before
  end.

Definition in_order (cs : list Call) : Prop :=
  forall i c, cs !! i = Some c -> needs c (take i cs).

(** What a goroutine holds: the identifier of a started container, an open
    log, the name of a started step. *)
Definition holds (cs : list Call) (t : Task) : Prop :=
  match t with
  | TLogs c name => ContainerStart c name None ∈ cs
  | TExecWait c name => ContainerStart c name None ∈ cs
  | TScan c name _ _ =>
      ContainerStart c name None ∈ cs /\ ContainerLogs name None ∈ cs
  | TSendLine c name _ _ l =>
      ContainerStart c name None ∈ cs /\ ContainerLogs name None ∈ cs /\
      Proc l = Name c
  | _ => True
  end.

(** The names of the steps whose container was started. *)
Definition started_names (cs : list Call) : list string :=
  omap (fun c => match c with
                 | ContainerStart c' _ None => Some (Name c')
                 | _ => None
                 end) cs.

Definition orderly (p : Pipeline) : Prop :=
  in_order (calls p) /\
  Forall (holds (calls p)) (tasks p) /\
  containers p = started (calls p) /\
  Forall (fun l => Proc l ∈ started_names (calls p)) (sent (pipe p)).



(** ** The controller ([main]) *)

(** Modelled from the spec: the groups of steps, [parser.NodeCache] and the
    others, are constants of package [parser]; an argument of [RunNode] is
    the list of the groups or-ed together. *)
Inductive NodeType :=
| NodeCache | NodeClone | NodeCompose | NodeBuild
| NodePublish | NodeDeploy | NodeNotify.

#[global] Instance NodeType_eq_dec : EqDecision NodeType.
Proof. solve_decision. Defined.

(** Modelled from the spec: the runner and its state, of package [runner]:
    [RunNode] runs the steps of the groups and returns the state it leaves
    and its error; [Failed] and [ExitCode] read the state. *)
Record Runner := mkRunner {
  RState : Type;
  RunNode : list NodeType -> RState -> RState * option error;
  Failed : RState -> bool;
  RExitCode : RState -> Z
}.

(** The switches of the command line. *)
Record Flags := mkFlags {
  cache : bool;
  clone : bool;
  build : bool;
  deploy : bool;
  notify : bool
}.

(** What the process does that the outside sees, from
    [defer controller.Destroy()] on. *)
Inductive Event :=
| EvRunNode (mask : list NodeType)
    (* [r.RunNode(state, mask)] is called *)
| EvDebugln (e : error)
    (* [log.Debugln(err)] *)
| EvPrintln (msg : string)
    (* [log.Println(msg)] *)
| EvDestroy
    (* [controller.Destroy()] *)
| EvExit (code : Z).
    (* the process ends with this status *)

#[global] Instance Event_eq_dec : EqDecision Event.
Proof. solve_decision. Defined.

(** A goroutine being executed: what it did so far, and the calls that it
    deferred, the latest first. *)
Record Frame := mkFrame {
  trace : list Event;
  deferred : list Event
}.

Definition emit (ev : Event) (pr : Frame) : Frame :=
  mkFrame (trace pr ++ [ev]) (deferred pr).

(** [defer f()] *)
Definition defer (ev : Event) (pr : Frame) : Frame :=
  mkFrame (trace pr) (ev :: deferred pr).

(** [os.Exit(code)]: the process ends at once and the deferred calls do not
    run. *)
Definition os_Exit (code : Z) (pr : Frame) : list Event :=
  trace pr ++ [EvExit code].

(** [main] returns: the deferred calls run, the latest first, and the
    process ends with status 0. *)
Definition main_returns (pr : Frame) : list Event :=
  trace pr ++ deferred pr ++ [EvExit 0].

(** [if flag { err = r.RunNode(state, mask); if err != nil { log.Debugln(err) } }] *)
Definition phase (R : Runner) (flag : bool) (mask : list NodeType)
    (acc : Frame * RState R) : Frame * RState R :=
  let '(pr, s) := acc in
  if flag then
    let pr := emit (EvRunNode mask) pr in
    let '(s', e) := RunNode R mask s in
    (match e with Some e' => emit (EvDebugln e') pr | None => pr end, s')
  else acc.

(** [main] from [defer controller.Destroy()] to the last of the six [if]s
    that run the groups. *)
Definition main_body (R : Runner) (f : Flags) (s : RState R) : Frame * RState R :=
  let a := (defer EvDestroy (mkFrame [] []), s) in
  let a := phase R (cache f) [NodeCache] a in
  let a := phase R (clone f) [NodeClone] a in
  let a := phase R (build f && negb (Failed R (snd a))) [NodeCompose; NodeBuild] a in
  let a := phase R (deploy f && negb (Failed R (snd a))) [NodePublish; NodeDeploy] a in
  let a := phase R (cache f) [NodeCache] a in
  phase R (notify f) [NodeNotify] a.

(** The goroutine of [main]: on a failed state [controller.Destroy()] and
    [os.Exit(state.ExitCode())]; else [main] returns. *)
Definition main_thread (R : Runner) (f : Flags) (s : RState R) : list Event :=
  let '(pr, s') := main_body R f s in
  if Failed R s' then os_Exit (RExitCode R s') (emit EvDestroy pr)
  else main_returns pr.

(** The goroutine that waits for [SIGINT] or [SIGTERM], once the signal has
    come, and the goroutine of the timeout, once the time is over. *)
Definition cancel_thread : list Event :=
  [EvPrintln "Cancel request received, killing process"; EvDestroy; EvExit 130].

Definition timeout_thread : list Event :=
  [EvPrintln "Timeout request received, killing process"; EvDestroy; EvExit 128].

(** The process: its goroutines interleaved as [sched] says, each given by
    what it still has to do; [os.Exit] in any of them ends the process.  A
    goroutine that [sched] never names stays blocked: no signal comes, the
    time is not over. *)
Fixpoint process (sched : list nat) (ths : list (list Event)) : list Event :=
  match sched with
  | [] => []
  | i :: sched' =>
      match ths !! i with
      | Some (EvExit code :: _) => [EvExit code]
      | Some (ev :: rest) => ev :: process sched' (<[i := rest]> ths)
      | _ => process sched' ths
      end
  end.

(** The groups run, the calls of [controller.Destroy], the status with
    which the process ended. *)
Definition groups (tr : list Event) : list (list NodeType) :=
  omap (fun ev => match ev with EvRunNode mask => Some mask | _ => None end) tr.



(** The events of the six [if]s. *)
Definition quiet (ev : Event) : Prop :=
  match ev with
  | EvRunNode _ | EvDebugln _ => True
  | _ => False
  end.

(** The state after the first two [if]s, where [main] first reads
    [state.Failed()]. *)
Definition after_clone (R : Runner) (f : Flags) (s : RState R) : RState R :=
  snd (phase R (clone f) [NodeClone]
         (phase R (cache f) [NodeCache] (defer EvDestroy (mkFrame [] []), s))).

(** The state in which the six [if]s leave the runner. *)
Definition final_state (R : Runner) (f : Flags) (s : RState R) : RState R :=
  snd (main_body R f s).

(** The status with which the goroutine of [main] ends the process. *)
Definition main_status (R : Runner) (f : Flags) (s : RState R) : Z :=
  if Failed R (final_state R f s) then RExitCode R (final_state R f s) else 0%Z.

Definition sel (b : bool) (mask : list NodeType) : list (list NodeType) :=
  if b then [mask] else [].



(** Every switch of [main] set. *)
Definition all_on : Flags := mkFlags true true true true true.





(** A running stand-in: the clone fails. *)
Definition clone_fails : Runner :=
  mkRunner (bool * Z)
    (fun mask s =>
       if decide (mask = [NodeClone])
       then ((true, 1%Z), Some (ExitError "clone" 1))
       else (s, None))
    fst snd.

(** [A] is blocked in [ContainerWait] and two lines of its log were
    forwarded. *)
Definition logged_A : Pipeline :=
  Eval vm_compute in
    match acts (A_blocked ++ Go 1 (RLogs None 1000)
                  :: scans 1 [("hello", 900001000%Z); ("world", 2500001000%Z)]) abc with
    | Ok p => p
    | _ => abc
    end.

(** [A] runs and exits 0; then [Skip] is called twice on [B]. *)
Definition at_B : Pipeline :=
  Eval vm_compute in
    match acts run_A abc with
    | Ok p => p
    | _ => abc
    end.

(** ** Reading the fields through the setters *)

Lemma lookup_spawned (t : Task) (p : Pipeline) :
  tasks (spawn t p) !! length (tasks p) = Some t.
Proof. simpl. apply list_lookup_middle. reflexivity. Qed.

Lemma lookup_spawn_old (t : Task) (p : Pipeline) (tid : nat) (t' : Task) :
  tasks p !! tid = Some t' -> tasks (spawn t p) !! tid = Some t'.
Proof. intros H. simpl. apply lookup_app_l_Some. exact H. Qed.

Lemma insert_spawned (t t' : Task) (l : list Task) :
  <[length l := t']> (l ++ [t]) = l ++ [t'].
Proof.
  rewrite insert_app_r_alt by lia.
  replace (length l - length l) with 0 by lia. reflexivity.
Qed.

(** ** The advance transition *)

(** C3: [step] compares [head] with [tail] on the calling path and moves
    nothing there.  When they are equal it starts a goroutine that delivers
    nil on [done] and leaves [head] alone; otherwise it starts a goroutine
    that moves [head] to its successor and then delivers nil on [next]. *)
Theorem step_advance (p : Pipeline) :
  head (step p) = head p /\ next (step p) = next p /\ done (step p) = done p /\
  (head p = tail p ->
     tasks (step p) = tasks p ++ [TSendDone None] /\
     (closed (done p) = false ->
      exists p', run (length (tasks p)) RNone (step p) = Ok p' /\
        done p' = send None (done p) /\ next p' = next p /\
        head p' = head p /\ tasks p' = tasks p ++ [TDone])) /\
  (head p <> tail p ->
     tasks (step p) = tasks p ++ [TStepNext] /\
     forall el, deref p = Some el ->
       exists p1, run (length (tasks p)) RNone (step p) = Ok p1 /\
         head p1 = el_next el /\ next p1 = next p /\ done p1 = done p /\
         tasks p1 = tasks p ++ [TSendNext] /\
         (closed (next p) = false ->
          exists p2, run (length (tasks p)) RNone p1 = Ok p2 /\
            next p2 = send None (next p) /\ done p2 = done p /\
            head p2 = el_next el /\ tasks p2 = tasks p ++ [TDone])).
Proof.
  unfold step.
  destruct (decide (head p = tail p)) as [Heq | Hne].
  - repeat split; try reflexivity; try contradiction.
    intros Hopen. unfold run. rewrite lookup_spawned. simpl.
    rewrite Hopen. eexists. split; [reflexivity |]. simpl.
    rewrite insert_spawned. repeat split.
  - repeat split; try reflexivity; try contradiction.
    intros el Hel. unfold run at 1. rewrite lookup_spawned.
    assert (Hd : deref (spawn TStepNext p) = Some el) by exact Hel.
    rewrite Hd. eexists. split; [reflexivity |]. simpl.
    rewrite insert_spawned. repeat split.
    intros Hopen. unfold run, set_task, spawn. simpl.
    rewrite insert_spawned, list_lookup_middle by reflexivity.
    rewrite Hopen. eexists. split; [reflexivity |]. simpl.
    rewrite insert_spawned. repeat split.
Qed.

(** [Skip] on the only step of a pipeline, and on the first of three. *)
Lemma step_advance_Skip :
  (exists p', run 0 RNone (Skip only_C) = Ok p' /\
     sent (done p') = [None] /\ sent (next p') = [] /\ head p' = Some 0) /\
  (exists p2, acts [Go 0 RNone; Go 0 RNone] (Skip abc) = Ok p2 /\
     sent (next p2) = [None] /\ sent (done p2) = [] /\ head p2 = Some 1).
Proof.
  split.
  - destruct (step_advance only_C) as (_ & _ & _ & Htail & _).
    destruct (Htail eq_refl) as (_ & Hrun).
    destruct (Hrun eq_refl) as (p' & Hp' & Hd & Hn & Hh & _).
    exists p'. split; [exact Hp' |]. rewrite Hd, Hn, Hh. repeat split.
  - destruct (step_advance abc) as (_ & _ & _ & _ & Hmid).
    assert (Hne : head abc <> tail abc) by discriminate.
    destruct (Hmid Hne) as (_ & Hrun).
    destruct (Hrun (mkElement stepA (Some 1)) eq_refl)
      as (p1 & Hp1 & _ & _ & _ & _ & Hsend).
    destruct (Hsend eq_refl) as (p2 & Hp2 & Hn & Hd & Hh & _).
    exists p2. split.
    + cbn [acts act]. unfold Skip. simpl length in Hp1. rewrite Hp1.
      simpl length in Hp2. rewrite Hp2. reflexivity.
    + rewrite Hn, Hd, Hh. repeat split.
Defined.

(** ** Classification of the terminal state *)

(** C4: when [ContainerWait] returns a state and no error, [exec] returns
    an [OomError] naming the step if the state is OOM-killed, else an
    [ExitError] naming the step and the code if the code is not zero, else
    nil; an OOM-killed state never gives an [ExitError]; an error of
    [ContainerWait] is returned as it is.  Only a step that is not detached
    gets there. *)
Theorem exec_wait_classifies (c : yaml_Container) (st : State) :
  (OOMKilled st = true ->
     exec_wait c (Some st) None = Some (Some (OomError (Name c)))) /\
  (OOMKilled st = false -> ExitCode st <> 0%Z ->
     exec_wait c (Some st) None = Some (Some (ExitError (Name c) (ExitCode st)))) /\
  (OOMKilled st = false -> ExitCode st = 0%Z ->
     exec_wait c (Some st) None = Some None) /\
  (OOMKilled st = true ->
     forall n k, exec_wait c (Some st) None <> Some (Some (ExitError n k))) /\
  (forall state e, exec_wait c state (Some e) = Some (Some e)) /\
  (forall name e p p' name',
     exec_start c name e p = Blocked p' name' ->
     Detached c = false /\ e = None /\ name' = name) /\
  (forall p tid name r,
     tasks p !! tid = Some (TExecWait c name) ->
     exec_wait c (Some st) None = Some r ->
     run tid (RWait (Some st) None) p = Ok (set_task tid TDone (Exec_return r p))).
Proof.
  unfold exec_wait. split; [| split; [| split; [| split; [| split; [| split]]]]].
  - intros ->. reflexivity.
  - intros -> Hne. destruct (decide (ExitCode st <> 0%Z)); [reflexivity | contradiction].
  - intros -> Hz. destruct (decide (ExitCode st <> 0%Z)); [contradiction | reflexivity].
  - intros ->. discriminate.
  - reflexivity.
  - intros name e p p' name' Hs. unfold exec_start in Hs.
    destruct e; [discriminate |]. destruct (Detached c); [discriminate |].
    injection Hs as _ <-. repeat split.
  - intros p tid name r Ht Hr. unfold run. rewrite Ht. unfold exec_wait.
    rewrite Hr. reflexivity.
Qed.

Lemma exec_wait_classifies_A :
  exec_wait stepA (Some (mkState 137 true)) None = Some (Some (OomError "A")) /\
  exec_wait stepA (Some (mkState 2 false)) None = Some (Some (ExitError "A" 2)) /\
  exec_wait stepA (Some (mkState 0 false)) None = Some None /\
  exec_wait stepA None (Some (EngineError "gone")) = Some (Some (EngineError "gone")).
Proof.
  split; [| split; [| split]].
  - apply (exec_wait_classifies stepA (mkState 137 true)). reflexivity.
  - apply (exec_wait_classifies stepA (mkState 2 false)); [reflexivity | discriminate].
  - apply (exec_wait_classifies stepA (mkState 0 false)); reflexivity.
  - apply (exec_wait_classifies stepA (mkState 0 false)).
Defined.

(** ** Schedules *)

Lemma run_goes (tid : nat) (r : Reply) (p p' : Pipeline) :
  run tid r p = Ok p' -> goes p tid r p'.
Proof.
  unfold run. destruct (tasks p !! tid) as [t |] eqn:Ht; [| discriminate].
  destruct t; destruct r; try discriminate.
  - destruct (deref p) as [el |] eqn:Hel; [| discriminate].
    intros [= <-]. eapply go_exec_begin; eassumption.
  - destruct (exec_start _ _ _ _) eqn:Hs; intros [= <-].
    + eapply go_exec_returned; eassumption.
    + eapply go_exec_blocked; eassumption.
  - destruct (exec_wait _ _ _) eqn:Hw; [| discriminate].
    intros [= <-]. eapply go_exec_resumed; eassumption.
  - destruct rerr; intros [= <-].
    + eapply go_logs_failed; eassumption.
    + eapply go_logs_opened; eassumption.
  - destruct text; intros [= <-].
    + eapply go_scan_line; eassumption.
    + eapply go_scan_end; eassumption.
  - destruct (closed (pipe p)) eqn:Hc; [discriminate |].
    intros [= <-]. eapply go_send_line; eassumption.
  - destruct (deref p) as [el |] eqn:Hel; [| discriminate].
    intros [= <-]. eapply go_step_next; eassumption.
  - destruct (closed (next p)) eqn:Hc; [discriminate |].
    intros [= <-]. eapply go_send_next; eassumption.
  - destruct (closed (done p)) eqn:Hc; [discriminate |].
    intros [= <-]. eapply go_send_done; eassumption.
Qed.

Lemma goes_run (tid : nat) (r : Reply) (p p' : Pipeline) :
  goes p tid r p' -> run tid r p = Ok p'.
Proof.
  intros H. unfold run.
  destruct H as [? -> -> | ? ? ? ? ? -> -> | ? ? ? ? ? -> -> | ? ? ? ? ? -> ->
                | ? ? ? ? -> | ? ? ? -> | ? ? ? ? ? -> | ? ? ? ? ? ? ->
                | ? ? ? ? ? -> -> | ? -> -> | -> -> | ? -> ->];
    reflexivity.
Qed.

Lemma run_send_done (k : nat) (e : option error) (p : Pipeline) :
  tasks p !! k = Some (TSendDone e) -> closed (done p) = false ->
  run k RNone p = Ok (set_task k TDone (set_done (send e (done p)) p)).
Proof. intros Ht Hc. apply goes_run. apply go_send_done; assumption. Qed.

Lemma run_step_next (k : nat) (el : element) (p : Pipeline) :
  tasks p !! k = Some TStepNext -> deref p = Some el ->
  run k RNone p = Ok (set_task k TSendNext (set_head (el_next el) p)).
Proof. intros Ht Hel. apply goes_run. apply go_step_next; assumption. Qed.

Lemma run_send_next (k : nat) (p : Pipeline) :
  tasks p !! k = Some TSendNext -> closed (next p) = false ->
  run k RNone p = Ok (set_task k TDone (set_next (send None (next p)) p)).
Proof. intros Ht Hc. apply goes_run. apply go_send_next; assumption. Qed.

Ltac goes_cases H :=
  destruct H as
    [ el0 Ht0 Hel0
    | c0 name0 e0 q0 r0 Ht0 Hs0
    | c0 name0 e0 q0 name1 Ht0 Hs0
    | c0 name0 state0 e0 r0 Ht0 Hw0
    | c0 name0 e0 now0 Ht0
    | c0 name0 now0 Ht0
    | c0 name0 now0 num0 t0 Ht0
    | c0 name0 now0 num0 s0 t0 Ht0
    | c0 name0 now0 num0 l0 Ht0 Hc0
    | el0 Ht0 Hel0
    | Ht0 Hc0
    | e0 Ht0 Hc0 ].

Lemma exec_start_Returned c name e p q r :
  exec_start c name e p = Returned q r ->
  (exists e', e = Some e' /\ r = Some e' /\ q = call (ContainerStart c name e) p) \/
  (e = None /\ Detached c = true /\ r = None /\ q = started_by c name p).
Proof.
  unfold exec_start. destruct e as [e' |].
  - intros [= <- <-]. left. eauto.
  - destruct (Detached c); [| discriminate].
    intros [= <- <-]. right. repeat split.
Qed.

Lemma exec_start_Blocked c name e p q name' :
  exec_start c name e p = Blocked q name' ->
  e = None /\ Detached c = false /\ name' = name /\
  q = call (ContainerWait name) (started_by c name p).
Proof.
  unfold exec_start. destruct e as [e' |]; [discriminate |].
  destruct (Detached c); [discriminate |].
  intros [= <- <-]. repeat split.
Qed.

Lemma step_fields (p : Pipeline) :
  exists t, step p = spawn t p /\ (t = TSendDone None \/ t = TStepNext).
Proof.
  unfold step. destruct (decide _); eauto.
Qed.

Lemma Exec_return_fields (r : option error) (p : Pipeline) :
  exists t, tasks (Exec_return r p) = tasks p ++ [t] /\
    (t = TSendDone None \/ t = TStepNext) /\
    err (Exec_return r p) = match r with Some e => Some e | None => err p end /\
    head (Exec_return r p) = head p /\ tail (Exec_return r p) = tail p /\
    nodes (Exec_return r p) = nodes p /\
    pipe (Exec_return r p) = pipe p /\ next (Exec_return r p) = next p /\
    done (Exec_return r p) = done p /\
    containers (Exec_return r p) = containers p /\
    calls (Exec_return r p) = calls p.
Proof.
  unfold Exec_return.
  destruct (step_fields (match r with Some e' => set_err (Some e') p | None => p end))
    as (t & -> & Ht).
  exists t. destruct r; repeat split; assumption.
Qed.

Lemma step_spawn (p : Pipeline) : step p = spawn (advance_task p) p.
Proof. unfold step, advance_task. destruct (decide _); reflexivity. Qed.

Lemma Exec_return_unfold (r : option error) (p : Pipeline) :
  Exec_return r p =
    spawn (advance_task p)
      (set_err (match r with Some e => Some e | None => err p end) p).
Proof.
  unfold Exec_return. rewrite step_spawn. destruct r; [reflexivity |].
  destruct p; reflexivity.
Qed.

(** An invariant of every scheduling decision is an invariant of every
    schedule. *)
Lemma acts_invariant (I : Pipeline -> Prop) :
  (forall a p p', I p -> act a p = Ok p' -> I p') ->
  forall l p p', I p -> acts l p = Ok p' -> I p'.
Proof.
  intros Hstep l. induction l as [| a l IH]; intros p p' Hp Hrun; simpl in Hrun.
  - injection Hrun as <-. exact Hp.
  - destruct (act a p) as [q | |] eqn:Ha; try discriminate.
    eapply IH; [| exact Hrun]. eapply Hstep; eassumption.
Qed.

(** [Teardown] touches [calls] and the two signalling channels only. *)
Lemma remove_all_calls rm i ids p :
  calls (remove_all rm i ids p) =
    calls p ++ imap (fun k id => ContainerRemove id (rm (i + k))) ids.
Proof.
  revert i p. induction ids as [| id ids IH]; intros i p; simpl.
  - rewrite app_nil_r. reflexivity.
  - rewrite IH. simpl. rewrite <- app_assoc. simpl.
    replace (i + 0) with i by lia. do 2 f_equal.
    apply imap_ext. intros k x _. simpl. f_equal. f_equal. lia.
Qed.

Lemma remove_all_frame rm i ids p :
  remove_all rm i ids p = set_calls (calls (remove_all rm i ids p)) p.
Proof.
  revert i p. induction ids as [| id ids IH]; intros i p; simpl.
  - destruct p; reflexivity.
  - rewrite IH. simpl. reflexivity.
Qed.

Lemma Teardown_unfold rm p :
  Teardown rm p =
    if closed (next p) then Panic
    else if closed (done p) then Panic
    else Ok (torn_down rm p).
Proof.
  unfold Teardown, torn_down. rewrite remove_all_frame, remove_all_calls.
  cbn. reflexivity.
Qed.

Lemma Teardown_Ok rm p p' :
  Teardown rm p = Ok p' ->
  closed (next p) = false /\ closed (done p) = false /\ p' = torn_down rm p.
Proof.
  rewrite Teardown_unfold.
  destruct (closed (next p)); [discriminate |].
  destruct (closed (done p)); [discriminate |].
  intros [= <-]. repeat split.
Qed.

(** A goroutine is moved by its own scheduling decisions only. *)
Lemma other_keeps_task (tid : nat) (t : Task) (a : Action) (p p' : Pipeline) :
  own tid a = false -> tasks p !! tid = Some t -> act a p = Ok p' ->
  tasks p' !! tid = Some t.
Proof.
  intros Hown Ht H.
  assert (Hlt : tid < length (tasks p)) by (eapply lookup_lt_Some; exact Ht).
  destruct a; simpl in H.
  - injection H as <-. apply lookup_spawn_old. exact Ht.
  - injection H as <-. unfold Skip. rewrite step_spawn.
    apply lookup_spawn_old. exact Ht.
  - injection H as <-. apply lookup_spawn_old. exact Ht.
  - apply Teardown_Ok in H as (_ & _ & ->). exact Ht.
  - simpl in Hown. apply Nat.eqb_neq in Hown.
    apply run_goes in H.
    goes_cases H; simpl;
      try (rewrite list_lookup_insert_ne by exact Hown; exact Ht).
    + rewrite list_lookup_insert_ne by exact Hown. rewrite Exec_return_unfold.
      apply lookup_spawn_old.
      apply exec_start_Returned in Hs0 as [(e' & -> & -> & ->) | (-> & _ & -> & ->)].
      * exact Ht.
      * simpl. apply lookup_app_l_Some. exact Ht.
    + rewrite list_lookup_insert_ne by exact Hown.
      apply exec_start_Blocked in Hs0 as (-> & _ & -> & ->).
      simpl. apply lookup_app_l_Some. exact Ht.
    + rewrite list_lookup_insert_ne by exact Hown. rewrite Exec_return_unfold.
      apply lookup_spawn_old. exact Ht.
Qed.

Lemma others_keep_task (tid : nat) (t : Task) (l : list Action) : forall p p',
  Forall (fun a => own tid a = false) l -> tasks p !! tid = Some t ->
  acts l p = Ok p' -> tasks p' !! tid = Some t.
Proof.
  induction l as [| a l IH]; intros p p' Hl Ht H; simpl in H.
  - injection H as <-. exact Ht.
  - destruct (act a p) as [q | |] eqn:Ha; try discriminate.
    inversion Hl as [| ? ? Hown Hl']; subst.
    apply (IH q p' Hl'); [| exact H].
    eapply other_keeps_task; eassumption.
Qed.

(** ** The stored error *)

Lemma err_kept (a : Action) (p p' : Pipeline) :
  act a p = Ok p' -> is_Some (err p) -> is_Some (err p').
Proof.
  intros H Hs. destruct a; simpl in H.
  - injection H as <-. exact Hs.
  - injection H as <-. destruct (step_fields p) as (t & Ht & _).
    unfold Skip. rewrite Ht. exact Hs.
  - injection H as <-. exact Hs.
  - apply Teardown_Ok in H as (_ & _ & ->). exact Hs.
  - apply run_goes in H. goes_cases H; try exact Hs.
    + destruct (Exec_return_fields r0 q0) as (t & _ & _ & Herr & _).
      simpl. rewrite Herr.
      apply exec_start_Returned in Hs0 as [(e' & -> & -> & ->) | (-> & _ & -> & ->)];
        [eauto | exact Hs].
    + apply exec_start_Blocked in Hs0 as (-> & _ & -> & ->). exact Hs.
    + destruct (Exec_return_fields r0 p) as (t & _ & _ & Herr & _).
      simpl. rewrite Herr. destruct r0; eauto.
Qed.

(** C10: a step that resolves with nil leaves the stored error as it is,
    a step that resolves with a failure overwrites it, also when an earlier
    failure is stored; and no schedule clears a stored error. *)
Theorem Err_sticky_but_overwritten (p : Pipeline) :
  Err (Exec_return None p) = Err p /\
  (forall e, Err (Exec_return (Some e) p) = Some e) /\
  (forall tid c name state e r,
     tasks p !! tid = Some (TExecWait c name) ->
     exec_wait c state e = Some r ->
     exists p', run tid (RWait state e) p = Ok p' /\
       Err p' = match r with Some e' => Some e' | None => Err p end) /\
  (forall l p', acts l p = Ok p' -> is_Some (Err p) -> is_Some (Err p')).
Proof.
  repeat split.
  - unfold Exec_return, step. destruct (decide _); reflexivity.
  - intros e. unfold Exec_return, step. destruct (decide _); reflexivity.
  - intros tid c name state e r Ht Hr. unfold run. rewrite Ht, Hr.
    eexists. split; [reflexivity |]. unfold Exec_return, step.
    destruct r; simpl; destruct (decide _); reflexivity.
  - intros l p' H Hs. unfold Err in *.
    eapply (acts_invariant (fun q => is_Some (err q))); [| exact Hs | exact H].
    intros a q q' Hq Ha. eapply err_kept; eassumption.
Qed.

(** The failure of [A] is stored and [C] is blocked: when [C] exits 0 the
    failure of [A] stays, when [C] is OOM-killed it is overwritten. *)
Lemma Err_sticky_but_overwritten_C :
  Err C_blocked_after_failure = Some (ExitError "A" 1) /\
  (exists p', run 4 (exited 0) C_blocked_after_failure = Ok p' /\
     Err p' = Some (ExitError "A" 1)) /\
  (exists p', run 4 oom_killed C_blocked_after_failure = Ok p' /\
     Err p' = Some (OomError "C")).
Proof.
  destruct (Err_sticky_but_overwritten C_blocked_after_failure) as (_ & _ & H & _).
  split; [reflexivity |]. split.
  - apply (H 4 stepC "idC" (Some (mkState 0 false)) None None); reflexivity.
  - apply (H 4 stepC "idC" (Some (mkState 137 true)) None (Some (OomError "C")));
      reflexivity.
Defined.

(** [A] exits 1 and [C], two steps later, is OOM-killed: [Err] is the
    failure of [C]. *)
Example two_failures :
  observe Err
    (acts [CallExec; Go 0 RNone; Go 0 (RStart "idA" None); Go 0 (exited 1);
           Go 2 RNone; Go 2 RNone;
           CallSkip; Go 3 RNone; Go 3 RNone;
           CallExec; Go 4 RNone; Go 4 (RStart "idC" None); Go 4 oom_killed] abc)
  = Some (Some (OomError "C")).
Proof. vm_compute. reflexivity. Qed.

(** ** Stop *)

(** C9: [Stop] starts one goroutine and changes nothing else: [head], the
    stored error, the started containers and the calls made to the engine are
    as before.  Whatever the other goroutines are doing, that goroutine
    delivers [ErrTerm] on [done], at once or after any schedule of the
    others, and again changes nothing else. *)
Theorem Stop_delivers_ErrTerm (p : Pipeline) (Hopen : closed (done p) = false) :
  tasks (Stop p) = tasks p ++ [TSendDone (Some ErrTerm)] /\
  head (Stop p) = head p /\ err (Stop p) = err p /\
  containers (Stop p) = containers p /\ calls (Stop p) = calls p /\
  pipe (Stop p) = pipe p /\ next (Stop p) = next p /\ done (Stop p) = done p /\
  (exists p', run (length (tasks p)) RNone (Stop p) = Ok p' /\
    done p' = send (Some ErrTerm) (done p) /\
    tasks p' = tasks p ++ [TDone] /\
    head p' = head p /\ err p' = err p /\
    containers p' = containers p /\ calls p' = calls p /\
    pipe p' = pipe p /\ next p' = next p) /\
  (forall l q,
     Forall (fun a => own (length (tasks p)) a = false) l ->
     acts l (Stop p) = Ok q -> closed (done q) = false ->
     exists q', run (length (tasks p)) RNone q = Ok q' /\
       done q' = send (Some ErrTerm) (done q) /\
       head q' = head q /\ err q' = err q /\
       containers q' = containers q /\ calls q' = calls q /\
       pipe q' = pipe q /\ next q' = next q).
Proof.
  do 8 (split; [reflexivity |]). split.
  - unfold Stop, run. rewrite lookup_spawned. simpl. rewrite Hopen.
    eexists. split; [reflexivity |]. simpl. rewrite insert_spawned.
    repeat split.
  - intros l q Hl Hrun Hq. eexists. split.
    + apply run_send_done; [| exact Hq].
      eapply others_keep_task; [exact Hl | | exact Hrun].
      apply lookup_spawned.
    + repeat split.
Qed.

Lemma Stop_delivers_ErrTerm_blocked :
  tasks blocked_A !! 0 = Some (TExecWait stepA "idA") /\
  exists p', run 2 RNone (Stop blocked_A) = Ok p' /\
    sent (done p') = [Some ErrTerm] /\
    tasks p' !! 0 = Some (TExecWait stepA "idA") /\
    calls p' = calls blocked_A.
Proof.
  split; [reflexivity |].
  destruct (Stop_delivers_ErrTerm blocked_A eq_refl)
    as (_ & _ & _ & _ & _ & _ & _ & _ &
        (p' & Hrun & Hdone & Htasks & _ & _ & _ & Hcalls & _) & _).
  exists p'. split; [exact Hrun |]. rewrite Hdone, Htasks, Hcalls.
  repeat split.
Defined.

(** After [Teardown] closed [done], the send of the goroutine of [Stop]
    panics. *)
Example Stop_after_Teardown :
  acts [CallTeardown rm_fails_first; CallStop; Go 9 RNone] finished_ABC = Panic.
Proof. vm_compute. reflexivity. Qed.

(** ** Started containers and teardown *)

Lemma started_snoc cs c : started (cs ++ [c]) = started cs ++ started [c].
Proof. apply omap_app. Qed.

Lemma removed_snoc cs c : removed (cs ++ [c]) = removed cs ++ removed [c].
Proof. apply omap_app. Qed.

Lemma removed_removals_from rm i ids :
  removed (imap (fun k id => ContainerRemove id (rm (i + k))) ids) = ids.
Proof.
  revert i. induction ids as [| id ids IH]; intros i; [reflexivity |].
  cbn. f_equal. rewrite <- (IH (S i)) at 2. f_equal.
  apply imap_ext. intros k x _. simpl. do 2 f_equal. lia.
Qed.

Lemma removed_removals rm ids : removed (removals rm ids) = ids.
Proof. apply (removed_removals_from rm 0). Qed.

(** Whoever ignores the removals finds none in [removals]. *)
Lemma omap_removals {A} (f : Call -> option A) rm ids :
  (forall id e, f (ContainerRemove id e) = None) ->
  omap f (removals rm ids) = [].
Proof.
  intros Hf. unfold removals.
  induction ids as [| id ids IH] in rm |- *; [reflexivity |].
  cbn. rewrite Hf. apply (IH (fun k => rm (S k))).
Qed.

Lemma started_removals rm ids : started (removals rm ids) = [].
Proof. apply omap_removals. reflexivity. Qed.

(** No scheduling decision closes [pipe]. *)
Lemma pipe_never_closed (a : Action) (p p' : Pipeline) :
  act a p = Ok p' -> closed (pipe p') = closed (pipe p).
Proof.
  intros H. destruct a; simpl in H.
  - injection H as <-. reflexivity.
  - injection H as <-. destruct (step_fields p) as (t & Ht & _).
    unfold Skip. rewrite Ht. reflexivity.
  - injection H as <-. reflexivity.
  - apply Teardown_Ok in H as (_ & _ & ->). reflexivity.
  - apply run_goes in H. goes_cases H; try reflexivity.
    + destruct (Exec_return_fields r0 q0) as (t & _ & _ & _ & _ & _ & _ & Hp & _).
      simpl. rewrite Hp.
      apply exec_start_Returned in Hs0 as [(e' & -> & -> & ->) | (-> & _ & -> & ->)];
        reflexivity.
    + apply exec_start_Blocked in Hs0 as (-> & _ & -> & ->). reflexivity.
    + destruct (Exec_return_fields r0 p) as (t & _ & _ & _ & _ & _ & _ & Hp & _).
      simpl. rewrite Hp. reflexivity.
Qed.

(** C7: [Teardown] calls [ContainerRemove] on every recorded identifier, in
    order, whatever the earlier removals answered; the answers reach nothing
    but the record of the calls.  It then closes [next] and [done].  [pipe]
    is left open, by [Teardown] and by every schedule. *)
Theorem Teardown_removes_and_closes (rm : nat -> option error) (p : Pipeline)
    (Hnext : closed (next p) = false) (Hdone : closed (done p) = false) :
  exists p', Teardown rm p = Ok p' /\
    calls p' = calls p ++ removals rm (containers p) /\
    removed (removals rm (containers p)) = containers p /\
    closed (next p') = true /\ closed (done p') = true /\
    sent (next p') = sent (next p) /\ sent (done p') = sent (done p) /\
    pipe p' = pipe p /\ err p' = err p /\ head p' = head p /\
    containers p' = containers p /\ tasks p' = tasks p /\
    (forall rm', exists p'', Teardown rm' p = Ok p'' /\
       set_calls [] p'' = set_calls [] p') /\
    (forall l q, acts l p' = Ok q -> closed (pipe q) = closed (pipe p)) /\
    (forall l q, acts l p = Ok q -> closed (pipe q) = closed (pipe p)).
Proof.
  exists (torn_down rm p). rewrite Teardown_unfold, Hnext, Hdone.
  split; [reflexivity |]. split; [reflexivity |].
  split; [apply removed_removals |].
  do 9 (split; [reflexivity |]).
  split; [| split].
  - intros rm'. exists (torn_down rm' p).
    rewrite Teardown_unfold, Hnext, Hdone. split; reflexivity.
  - intros l q H.
    apply (acts_invariant (fun q => closed (pipe q) = closed (pipe p)))
      with (l := l) (p := torn_down rm p); [| reflexivity | exact H].
    intros a q1 q2 Hq Ha. rewrite <- Hq. eapply pipe_never_closed; eassumption.
  - intros l q H.
    apply (acts_invariant (fun q => closed (pipe q) = closed (pipe p)))
      with (l := l) (p := p); [| reflexivity | exact H].
    intros a q1 q2 Hq Ha. rewrite <- Hq. eapply pipe_never_closed; eassumption.
Qed.

Lemma finished_ABC_reached : acts run_ABC abc = Ok finished_ABC.
Proof. vm_compute. reflexivity. Qed.

Lemma Teardown_removes_and_closes_ABC :
  observe (fun p => (removed (calls p), closed (next p), closed (done p),
                     closed (pipe p), err p))
    (Teardown rm_fails_first finished_ABC)
  = Some (["idA"; "idB"; "idC"], true, true, false, Some (ExitError "C" 1)).
Proof.
  destruct (Teardown_removes_and_closes rm_fails_first finished_ABC eq_refl eq_refl)
    as (p' & -> & Hcalls & _ & Hn & Hd & _ & _ & Hpipe & Herr & _).
  simpl. rewrite Hcalls, Hn, Hd, Hpipe, Herr. reflexivity.
Defined.

Lemma accounted_same (p q : Pipeline) :
  containers q = containers p -> calls q = calls p ->
  closed (next q) = closed (next p) ->
  accounted p -> accounted q.
Proof. unfold accounted. intros -> -> ->. tauto. Qed.

Lemma accounted_started_by c name p :
  accounted p -> accounted (started_by c name p).
Proof.
  unfold accounted. simpl. rewrite started_snoc, removed_snoc. simpl.
  rewrite app_nil_r. intros [-> H]. tauto.
Qed.

Lemma accounted_call (c : Call) (p : Pipeline) :
  started [c] = [] -> removed [c] = [] -> accounted p -> accounted (call c p).
Proof.
  intros Hs Hr. unfold accounted. cbn [call set_calls calls containers next].
  rewrite started_snoc, removed_snoc, Hs, Hr, !app_nil_r. tauto.
Qed.

Lemma accounted_act (a : Action) (p p' : Pipeline) :
  accounted p -> act a p = Ok p' -> accounted p'.
Proof.
  intros Hp H. destruct a; simpl in H.
  - injection H as <-. revert Hp. apply accounted_same; reflexivity.
  - injection H as <-. destruct (step_fields p) as (t & Ht & _).
    unfold Skip. rewrite Ht. revert Hp. apply accounted_same; reflexivity.
  - injection H as <-. revert Hp. apply accounted_same; reflexivity.
  - apply Teardown_Ok in H as (_ & _ & ->). destruct Hp as [Hc _].
    split; [| discriminate]. simpl. unfold started. rewrite omap_app.
    fold (started (calls p)). fold (started (removals rm (containers p))).
    rewrite started_removals, app_nil_r. exact Hc.
  - apply run_goes in H.
    assert (Hcall : forall c t, started [c] = [] -> removed [c] = [] ->
                      accounted (set_task tid t (call c p))).
    { intros c t Hs Hr. apply (accounted_same (call c p)); try reflexivity.
      apply accounted_call; assumption. }
    goes_cases H;
      try (apply Hcall; reflexivity);
      try (revert Hp; apply accounted_same; reflexivity).
    + destruct (Exec_return_fields r0 q0)
        as (t & _ & _ & _ & _ & _ & _ & _ & Hn & _ & Hc & Hk).
      apply (accounted_same q0); simpl; try congruence.
      apply exec_start_Returned in Hs0 as [(e' & -> & -> & ->) | (-> & _ & -> & ->)].
      * apply accounted_call; [reflexivity | reflexivity | exact Hp].
      * apply accounted_started_by. exact Hp.
    + apply exec_start_Blocked in Hs0 as (-> & _ & -> & ->).
      apply (accounted_same (call (ContainerWait name0) (started_by c0 name0 p)));
        try reflexivity.
      apply accounted_call; [reflexivity | reflexivity |].
      apply accounted_started_by. exact Hp.
    + destruct (Exec_return_fields r0 p)
        as (t & _ & _ & _ & _ & _ & _ & _ & Hn & _ & Hc & Hk).
      apply (accounted_same p); simpl; congruence.
Qed.

Lemma accounted_Load steps : accounted (Load steps).
Proof. split; reflexivity. Qed.

(** [containers] is append-only. *)
Lemma containers_grow (a : Action) (p p' : Pipeline) :
  act a p = Ok p' -> exists more, containers p' = containers p ++ more.
Proof.
  intros H.
  assert (Hsame : forall q, containers q = containers p ->
            exists more, containers q = containers p ++ more).
  { intros q ->. exists []. rewrite app_nil_r. reflexivity. }
  destruct a; simpl in H.
  - injection H as <-. apply Hsame. reflexivity.
  - injection H as <-. apply Hsame. unfold Skip. rewrite step_spawn. reflexivity.
  - injection H as <-. apply Hsame. reflexivity.
  - apply Teardown_Ok in H as (_ & _ & ->). apply Hsame. reflexivity.
  - apply run_goes in H. goes_cases H; try (apply Hsame; reflexivity).
    + rewrite Exec_return_unfold.
      apply exec_start_Returned in Hs0 as [(e' & -> & -> & ->) | (-> & _ & -> & ->)].
      * apply Hsame. reflexivity.
      * exists [name0]. reflexivity.
    + apply exec_start_Blocked in Hs0 as (-> & _ & -> & ->).
      exists [name0]. reflexivity.
    + apply Hsame. rewrite Exec_return_unfold. reflexivity.
Qed.

Lemma containers_grow_acts (l : list Action) (p p' : Pipeline) :
  acts l p = Ok p' -> exists more, containers p' = containers p ++ more.
Proof.
  apply (acts_invariant (fun q => exists more, containers q = containers p ++ more)).
  - intros a q q' (more & Hq) Ha.
    destruct (containers_grow a q q' Ha) as (more' & Hq').
    exists (more ++ more'). rewrite Hq', Hq, app_assoc. reflexivity.
  - exists []. rewrite app_nil_r. reflexivity.
Qed.

(** C6: in every state the pipeline reaches, [containers] is the list of
    the identifiers returned by the successful [ContainerStart] calls, in
    order.  A failed start is returned at once: nothing is recorded and no
    forwarding goroutine is started.  A successful start appends its
    identifier before anything else can happen to the step, and no schedule
    takes an identifier away.  [Teardown] passes exactly the recorded
    identifiers to [ContainerRemove]. *)
Theorem containers_are_started_ids (steps : list yaml_Container)
    (l : list Action) (p : Pipeline) (Hreach : acts l (Load steps) = Ok p) :
  containers p = started (calls p) /\
  (forall c name e q,
     exec_start c name (Some e) q =
       Returned (call (ContainerStart c name (Some e)) q) (Some e) /\
     containers (exec_pipeline (exec_start c name (Some e) q)) = containers q /\
     tasks (exec_pipeline (exec_start c name (Some e) q)) = tasks q) /\
  (forall c name q,
     containers (exec_pipeline (exec_start c name None q)) = containers q ++ [name] /\
     tasks (exec_pipeline (exec_start c name None q)) = tasks q ++ [TLogs c name]) /\
  (forall l' p', acts l' p = Ok p' ->
     exists more, containers p' = containers p ++ more) /\
  (forall rm p', Teardown rm p = Ok p' ->
     removed (calls p') = containers p /\
     removed (calls p') = started (calls p') /\
     containers p' = containers p).
Proof.
  assert (Hacc : accounted p).
  { eapply (acts_invariant accounted); [| apply accounted_Load | exact Hreach].
    intros a q q' Hq Ha. eapply accounted_act; eassumption. }
  split; [apply Hacc |]. split; [| split; [| split]].
  - intros c name e q. repeat split.
  - intros c name q. unfold exec_start. destruct (Detached c); split; reflexivity.
  - intros l' p'. apply containers_grow_acts.
  - intros rm p' Ht.
    assert (Hacc' : accounted p').
    { apply (accounted_act (CallTeardown rm) p p'); assumption. }
    apply Teardown_Ok in Ht as (Hn & _ & ->). destruct Hacc as [Hc Hr].
    assert (Hrem : removed (calls (torn_down rm p)) = containers p).
    { simpl. unfold removed. rewrite omap_app.
      fold (removed (calls p)). fold (removed (removals rm (containers p))).
      rewrite (Hr Hn), removed_removals. reflexivity. }
    split; [exact Hrem |]. split; [| reflexivity].
    rewrite Hrem. apply Hacc'.
Qed.

Lemma containers_are_started_ids_ABC :
  containers finished_ABC = ["idA"; "idB"; "idC"] /\
  started (calls finished_ABC) = ["idA"; "idB"; "idC"] /\
  observe (fun p => removed (calls p)) (Teardown rm_fails_first finished_ABC)
  = Some ["idA"; "idB"; "idC"].
Proof.
  destruct (containers_are_started_ids [stepA; stepB; stepC] run_ABC finished_ABC
              finished_ABC_reached) as (Hc & _ & _ & _ & Ht).
  split; [reflexivity |]. split; [rewrite <- Hc; reflexivity |].
  assert (E : Teardown rm_fails_first finished_ABC
              = Ok (torn_down rm_fails_first finished_ABC)) by reflexivity.
  rewrite E. destruct (Ht _ _ E) as (Hrem & _).
  unfold observe. rewrite Hrem. reflexivity.
Defined.

(** ** Detached steps *)

Lemma waits_snoc cs c : waits (cs ++ [c]) = waits cs ++ waits [c].
Proof. apply omap_app. Qed.

Lemma starts_snoc cs c : starts (cs ++ [c]) = starts cs ++ starts [c].
Proof. apply omap_app. Qed.

Lemma starts_removals rm ids : starts (removals rm ids) = [].
Proof. apply omap_removals. reflexivity. Qed.

Lemma waits_removals rm ids : waits (removals rm ids) = [].
Proof. apply omap_removals. reflexivity. Qed.

Lemma settled_spawn t p : in_flight t = false -> settled p -> settled (spawn t p).
Proof.
  unfold settled. simpl. intros Ht Hp. apply Forall_app. split; [exact Hp |].
  constructor; [exact Ht | constructor].
Qed.

Lemma settled_set_task tid t p :
  in_flight t = false -> settled p -> settled (set_task tid t p).
Proof. unfold settled. simpl. intros Ht Hp. apply Forall_insert; assumption. Qed.

Lemma settled_not_running tid t p :
  settled p -> tasks p !! tid = Some t -> in_flight t = false.
Proof.
  unfold settled. intros Hp Ht. rewrite Forall_lookup in Hp. eapply Hp, Ht.
Qed.

(** While no step is executing and [Exec] is not called, the stored error
    stays and neither [ContainerWait] nor [ContainerStart] is called. *)
Lemma settled_act (a : Action) (p p' : Pipeline) :
  settled p -> a <> CallExec -> act a p = Ok p' ->
  settled p' /\ err p' = err p /\ waits (calls p') = waits (calls p) /\
  starts (calls p') = starts (calls p).
Proof.
  intros Hp Ha H. destruct a; simpl in H.
  - contradiction.
  - injection H as <-. destruct (step_fields p) as (t & Ht & Hk).
    unfold Skip. rewrite Ht. split; [| repeat split].
    apply settled_spawn; [| exact Hp]. destruct Hk as [-> | ->]; reflexivity.
  - injection H as <-. split; [| repeat split].
    apply settled_spawn; [reflexivity | exact Hp].
  - apply Teardown_Ok in H as (_ & _ & ->). split; [exact Hp |].
    split; [reflexivity |]. simpl. unfold waits, starts. rewrite !omap_app.
    fold (waits (removals rm (containers p))).
    fold (starts (removals rm (containers p))).
    rewrite waits_removals, starts_removals, !app_nil_r. split; reflexivity.
  - apply run_goes in H.
    goes_cases H;
      try (pose proof (settled_not_running _ _ _ Hp Ht0) as Hf; discriminate Hf);
      (split; [apply settled_set_task; [reflexivity | exact Hp] |]);
      split; try reflexivity; split; try reflexivity;
      simpl; rewrite ?waits_snoc, ?starts_snoc, app_nil_r; reflexivity.
Qed.

Lemma settled_acts (l : list Action) (p p' : Pipeline) :
  settled p -> Forall not_Exec l -> acts l p = Ok p' ->
  settled p' /\ err p' = err p /\ waits (calls p') = waits (calls p) /\
  starts (calls p') = starts (calls p).
Proof.
  revert p. induction l as [| a l IH]; intros p Hp Hl H; simpl in H.
  - injection H as <-. repeat split. exact Hp.
  - destruct (act a p) as [q | |] eqn:Ha; try discriminate.
    inversion Hl as [| ? ? Hna Hl']; subst.
    destruct (settled_act a p q Hp Hna Ha) as (Hq & He & Hw & Hs).
    destruct (IH q Hq Hl' H) as (Hp' & He' & Hw' & Hs').
    split; [exact Hp' |]. repeat split; congruence.
Qed.

(** When the goroutine [tid] of [Exec] returns and no other step is
    executing, no step is executing. *)
Lemma settled_returned (tid : nat) (t : Task) (r : option error) (p q : Pipeline) :
  tasks p !! tid = Some t ->
  (forall tid' t', tid' <> tid -> tasks p !! tid' = Some t' -> in_flight t' = false) ->
  (tasks q = tasks p \/ exists c name, tasks q = tasks p ++ [TLogs c name]) ->
  head q = head p -> tail q = tail p ->
  settled (set_task tid TDone (Exec_return r q)).
Proof.
  intros Ht Hsingle Hq Hh Htl.
  assert (Hlt : tid < length (tasks p)) by (eapply lookup_lt_Some; exact Ht).
  assert (Hold : Forall (fun t => in_flight t = false) (<[tid := TDone]> (tasks p))).
  { apply Forall_lookup. intros i x Hi.
    destruct (decide (i = tid)) as [-> | Hne].
    - rewrite list_lookup_insert_eq in Hi by exact Hlt.
      injection Hi as <-. reflexivity.
    - rewrite list_lookup_insert_ne in Hi by congruence.
      eapply Hsingle; eassumption. }
  assert (Hadv : in_flight (advance_task q) = false).
  { unfold advance_task. destruct (decide _); reflexivity. }
  unfold settled. rewrite Exec_return_unfold. simpl.
  destruct Hq as [-> | (c & name & ->)].
  - rewrite insert_app_l by exact Hlt. apply Forall_app. split; [exact Hold |].
    constructor; [exact Hadv | constructor].
  - rewrite <- app_assoc. rewrite insert_app_l by exact Hlt.
    apply Forall_app. split; [exact Hold |].
    constructor; [reflexivity |]. constructor; [exact Hadv | constructor].
Qed.

Lemma awaits_more (cs more : list Call) (t : Task) :
  awaits cs t -> awaits (cs ++ more) t.
Proof.
  destruct t; simpl; try tauto. rewrite elem_of_app. tauto.
Qed.

Lemma awaits_advance (cs : list Call) (p : Pipeline) : awaits cs (advance_task p).
Proof. unfold advance_task. destruct (decide _); exact I. Qed.

Lemma own_waits_app (cs more : list Call) :
  own_waits cs -> own_waits more -> own_waits (cs ++ more).
Proof.
  intros Hcs Hmore i name Hi. apply lookup_app_Some in Hi as [Hi | [Hge Hi]].
  - destruct (Hcs i name Hi) as (c & Hc & Hin). exists c. split; [exact Hc |].
    rewrite take_app_le by (apply lookup_lt_Some in Hi; lia). exact Hin.
  - destruct (Hmore _ name Hi) as (c & Hc & Hin). exists c. split; [exact Hc |].
    rewrite take_app, take_ge by lia. apply elem_of_app. right. exact Hin.
Qed.

Lemma own_waits_quiet (more : list Call) :
  waits more = [] -> own_waits more.
Proof.
  intros Hw i name Hi. exfalso.
  assert (Hin : name ∈ waits more).
  { unfold waits. apply list_elem_of_omap. exists (ContainerWait name).
    split; [eapply list_elem_of_lookup_2; exact Hi | reflexivity]. }
  rewrite Hw in Hin. inversion Hin.
Qed.

Lemma own_waits_started (c : yaml_Container) (name : string) :
  Detached c = false -> own_waits [ContainerStart c name None; ContainerWait name].
Proof.
  intros Hc [| [| i]] name' Hi; try discriminate Hi.
  injection Hi as <-. exists c. split; [exact Hc |].
  simpl. apply list_elem_of_singleton. reflexivity.
Qed.

Lemma waits_own_next (p p' : Pipeline) (more : list Call) (tid : nat) (t' : Task)
    (new : list Task) :
  waits_own p ->
  calls p' = calls p ++ more -> own_waits more ->
  tasks p' = <[tid := t']> (tasks p) ++ new ->
  awaits (calls p ++ more) t' -> Forall (awaits (calls p ++ more)) new ->
  waits_own p'.
Proof.
  intros (Ht & Hc) Hcalls Hmore Htasks Ht' Hnew.
  unfold waits_own. rewrite Hcalls, Htasks. split.
  - apply Forall_app. split; [| exact Hnew].
    apply Forall_insert; [| exact Ht'].
    eapply Forall_impl; [exact Ht |]. intros t. apply awaits_more.
  - apply own_waits_app; assumption.
Qed.

Lemma waits_own_Load (steps : list yaml_Container) : waits_own (Load steps).
Proof.
  split; [constructor |]. intros i name Hi. discriminate Hi.
Qed.

Ltac waits_side :=
  try assumption; try exact I; try reflexivity;
  try (apply own_waits_quiet; reflexivity);
  try (simpl; rewrite ?app_nil_r; reflexivity);
  try (simpl; rewrite <- ?app_assoc; reflexivity);
  try (simpl; rewrite <- ?app_assoc; apply insert_app_l;
       eapply lookup_lt_Some; eassumption);
  try (simpl; rewrite list_insert_ge by lia; rewrite ?app_nil_r; reflexivity);
  try (repeat (constructor; [first [exact I | apply awaits_advance] |]);
       constructor).

(** What one decision adds to the calls and does to the stored error. *)
Lemma waits_own_act (a : Action) (p p' : Pipeline) :
  waits_own p -> act a p = Ok p' ->
  waits_own p' /\
  (exists more, calls p' = calls p ++ more /\ own_waits more) /\
  (err p' <> err p -> exists tid c, resolves a tid c p (err p')).
Proof.
  intros Hp H.
  assert (Hnext : forall (q : Pipeline) more tid t' new,
            calls q = calls p ++ more -> own_waits more ->
            tasks q = <[tid := t']> (tasks p) ++ new ->
            awaits (calls p ++ more) t' -> Forall (awaits (calls p ++ more)) new ->
            (err q <> err p -> exists tid c, resolves a tid c p (err q)) ->
            waits_own q /\
            (exists more, calls q = calls p ++ more /\ own_waits more) /\
            (err q <> err p -> exists tid c, resolves a tid c p (err q))).
  { intros q more tid t' new Hc Hm Ht Ht' Hnew He. split; [| split; [| exact He]].
    - apply (waits_own_next p q more tid t' new); assumption.
    - exists more. split; assumption. }
  assert (Hsame : forall q : Pipeline, err q = err p ->
            err q <> err p -> exists tid c, resolves a tid c p (err q)).
  { intros q He Hne. contradiction. }
  destruct a as [| | | rm | tid r]; simpl in H.
  - injection H as <-.
    apply (Hnext _ [] (length (tasks p)) TDone [TExec]); waits_side.
    apply Hsame. reflexivity.
  - injection H as <-. unfold Skip. rewrite step_spawn.
    apply (Hnext _ [] (length (tasks p)) TDone [advance_task p]); waits_side.
    apply Hsame. reflexivity.
  - injection H as <-.
    apply (Hnext _ [] (length (tasks p)) TDone [TSendDone (Some ErrTerm)]); waits_side.
    apply Hsame. reflexivity.
  - apply Teardown_Ok in H as (_ & _ & ->).
    apply (Hnext _ (removals rm (containers p)) (length (tasks p)) TDone []);
      waits_side.
    + apply own_waits_quiet, waits_removals.
    + apply Hsame. reflexivity.
  - apply run_goes in H.
    assert (Hheld : forall t, tasks p !! tid = Some t -> awaits (calls p) t).
    { intros t Ht. destruct Hp as (Hts & _). rewrite Forall_lookup in Hts.
      eapply Hts, Ht. }
    goes_cases H.
    + apply (Hnext _ [] tid (TExecStart (el_Container el0)) []); waits_side.
      apply Hsame. reflexivity.
    + rewrite Exec_return_unfold.
      apply exec_start_Returned in Hs0 as [(e' & -> & -> & ->) | (-> & _ & -> & ->)].
      * apply (Hnext _ [ContainerStart c0 name0 (Some e')] tid TDone
                 [advance_task (call (ContainerStart c0 name0 (Some e')) p)]);
          waits_side.
        intros _. exists tid, c0. simpl. repeat split. exact Ht0.
      * apply (Hnext _ [ContainerStart c0 name0 None] tid TDone
                 [TLogs c0 name0; advance_task (started_by c0 name0 p)]);
          waits_side.
        apply Hsame. reflexivity.
    + apply exec_start_Blocked in Hs0 as (-> & Hd & -> & ->).
      apply (Hnext _ [ContainerStart c0 name0 None; ContainerWait name0]
               tid (TExecWait c0 name0) [TLogs c0 name0]); waits_side.
      * apply own_waits_started. exact Hd.
      * exact Hd.
      * apply elem_of_app. right. apply elem_of_cons. left. reflexivity.
      * apply Hsame. reflexivity.
    + rewrite Exec_return_unfold.
      destruct (Hheld _ Ht0) as (Hd & _).
      apply (Hnext _ [] tid TDone [advance_task p]); waits_side.
      intros Hne. exists tid, c0. simpl. split; [reflexivity |].
      split; [exact Hd |]. split; [exists name0; exact Ht0 |].
      rewrite Hw0. f_equal. destruct r0 as [e' |]; [reflexivity |].
      contradiction Hne. reflexivity.
    + apply (Hnext _ [ContainerLogs name0 (Some e0)] tid TDone []); waits_side.
      apply Hsame. reflexivity.
    + apply (Hnext _ [ContainerLogs name0 None] tid (TScan c0 name0 now0 0) []);
        waits_side.
      apply Hsame. reflexivity.
    + apply (Hnext _ [rc_Close name0] tid TDone []); waits_side.
      apply Hsame. reflexivity.
    + apply (Hnext _ [] tid
               (TSendLine c0 name0 now0 num0
                  (mkLine (Name c0) (Seconds_int64 (Since now0 t0)) num0 s0)) []);
        waits_side.
      apply Hsame. reflexivity.
    + apply (Hnext _ [] tid (TScan c0 name0 now0 (int_incr num0)) []); waits_side.
      apply Hsame. reflexivity.
    + apply (Hnext _ [] tid TSendNext []); waits_side.
      apply Hsame. reflexivity.
    + apply (Hnext _ [] tid TDone []); waits_side.
      apply Hsame. reflexivity.
    + apply (Hnext _ [] tid TDone []); waits_side.
      apply Hsame. reflexivity.
Qed.

Lemma waits_own_acts (l : list Action) (p q : Pipeline) :
  waits_own p -> acts l p = Ok q ->
  waits_own q /\ exists more, calls q = calls p ++ more /\ own_waits more.
Proof.
  revert p. induction l as [| a l IH]; intros p Hp H; simpl in H.
  - injection H as <-. split; [exact Hp |]. exists []. rewrite app_nil_r.
    split; [reflexivity |]. apply own_waits_quiet. reflexivity.
  - destruct (act a p) as [p1 | |] eqn:Ha; try discriminate.
    destruct (waits_own_act a p p1 Hp Ha) as (Hp1 & (m1 & Hc1 & Hm1) & _).
    destruct (IH p1 Hp1 H) as (Hq & m2 & Hc2 & Hm2).
    split; [exact Hq |]. exists (m1 ++ m2).
    split; [rewrite Hc2, Hc1, app_assoc; reflexivity |].
    apply own_waits_app; assumption.
Qed.

(** A goroutine that returned takes no decision. *)
Lemma returned_takes_nothing (tid : nat) (r : Reply) (p : Pipeline) :
  tasks p !! tid = Some TDone -> run tid r p = Disabled.
Proof. intros Ht. unfold run. rewrite Ht. destruct r; reflexivity. Qed.

Lemma returned_stays (tid : nat) (l : list Action) : forall p q,
  tasks p !! tid = Some TDone -> acts l p = Ok q -> tasks q !! tid = Some TDone.
Proof.
  induction l as [| a l IH]; intros p q Ht H; simpl in H.
  - injection H as <-. exact Ht.
  - destruct (act a p) as [p1 | |] eqn:Ha; try discriminate.
    apply (IH p1 q); [| exact H].
    destruct (own tid a) eqn:Hown.
    + destruct a as [| | | | tid' r]; try discriminate Hown.
      simpl in Hown. apply Nat.eqb_eq in Hown. subst tid'.
      simpl in Ha. rewrite (returned_takes_nothing tid r p Ht) in Ha. discriminate Ha.
    + eapply other_keeps_task; eassumption.
Qed.

(** C5: for a detached step whose start succeeded, [exec] returns nil
    without calling [ContainerWait]: the stored error stays and the advance
    goroutine is started.  From then on, under every schedule, with later
    steps executing or not: the goroutine of the step has returned and takes
    no answer; every call of [ContainerWait] made since follows a
    [ContainerStart] made since for a step that is not detached; an answer of
    [ContainerWait] is only taken by the goroutine of another step, not
    detached, for the container it started itself, and classified under that
    step; and the stored error changes only when another step resolves with a
    failure.  The state of the detached container reaches the pipeline
    nowhere. *)
Theorem detached_returns_at_once (c : yaml_Container) (name : string)
    (p : Pipeline) (Hdetached : Detached c = true) (Hown : waits_own p) :
  exec_start c name None p = Returned (started_by c name p) None /\
  waits (calls (started_by c name p)) = waits (calls p) /\
  (forall tid,
     tasks p !! tid = Some (TExecStart c) ->
     exists p', run tid (RStart name None) p = Ok p' /\
       Err p' = Err p /\ tasks p' !! tid = Some TDone /\
       waits (calls p') = waits (calls p) /\
       last (tasks p') = Some (advance_task p) /\
       forall l p'', acts l p' = Ok p'' ->
         tasks p'' !! tid = Some TDone /\
         (forall r, run tid r p'' = Disabled) /\
         (exists more, calls p'' = calls p' ++ more /\
            forall i name', more !! i = Some (ContainerWait name') ->
              exists c', Detached c' = false /\
                ContainerStart c' name' None ∈ take i more) /\
         (forall tid' state e q, run tid' (RWait state e) p'' = Ok q ->
            tid' <> tid /\
            exists c' name' r,
              tasks p'' !! tid' = Some (TExecWait c' name') /\
              Detached c' = false /\ ContainerStart c' name' None ∈ calls p'' /\
              exec_wait c' state e = Some r /\
              Err q = match r with Some e' => Some e' | None => Err p'' end) /\
         (forall l1 a l2 q1 q2,
            l = l1 ++ a :: l2 -> acts l1 p' = Ok q1 -> act a q1 = Ok q2 ->
            Err q2 <> Err q1 ->
            exists tid' c', tid' <> tid /\ resolves a tid' c' q1 (Err q2))).
Proof.
  assert (Hs : exec_start c name None p = Returned (started_by c name p) None).
  { unfold exec_start. rewrite Hdetached. reflexivity. }
  assert (Hw : waits (calls (started_by c name p)) = waits (calls p)).
  { simpl. rewrite waits_snoc, app_nil_r. reflexivity. }
  split; [exact Hs |]. split; [exact Hw |].
  intros tid Ht.
  destruct (Exec_return_fields None (started_by c name p))
    as (t & Htasks & Hk & Herr & _ & _ & _ & _ & _ & _ & _ & Hcalls).
  set (p' := set_task tid TDone (Exec_return None (started_by c name p))).
  assert (Hrun : run tid (RStart name None) p = Ok p').
  { unfold run. rewrite Ht, Hs. reflexivity. }
  assert (Hlt : tid < length (tasks p)) by (eapply lookup_lt_Some; exact Ht).
  assert (Hdone : tasks p' !! tid = Some TDone).
  { simpl. apply list_lookup_insert_eq. rewrite Htasks. simpl.
    rewrite !length_app. lia. }
  assert (Hown' : waits_own p').
  { apply (waits_own_act (Go tid (RStart name None)) p p' Hown Hrun). }
  exists p'. split; [exact Hrun |]. split; [exact Herr |]. split; [exact Hdone |].
  split; [simpl; rewrite Hcalls; exact Hw |].
  split.
  { unfold p'. rewrite Exec_return_unfold. simpl.
    rewrite <- app_assoc, insert_app_l by exact Hlt.
    rewrite app_assoc, last_snoc. reflexivity. }
  intros l p'' Hl.
  pose proof (returned_stays tid l p' p'' Hdone Hl) as Hdone''.
  destruct (waits_own_acts l p' p'' Hown' Hl) as (Hown'' & more & Hmore & Hwaits).
  split; [exact Hdone'' |].
  split; [intros r; apply returned_takes_nothing; exact Hdone'' |].
  split; [exists more; split; [exact Hmore | exact Hwaits] |].
  split.
  - intros tid' state e q Hq. apply run_goes in Hq.
    inversion Hq as [| | | c' name' state' e' r Ht' Hr | | | | | | | |]; subst.
    assert (Hne : tid' <> tid).
    { intros ->. rewrite Hdone'' in Ht'. discriminate Ht'. }
    split; [exact Hne |].
    destruct Hown'' as (Hts & _). rewrite Forall_lookup in Hts.
    destruct (Hts _ _ Ht') as (Hd & Hin).
    exists c', name', r. split; [exact Ht' |]. split; [exact Hd |].
    split; [exact Hin |]. split; [exact Hr |].
    destruct (Exec_return_fields r p'') as (_ & _ & _ & He & _). exact He.
  - intros l1 a l2 q1 q2 -> Hl1 Ha Hne.
    destruct (waits_own_acts l1 p' q1 Hown' Hl1) as (Hq1 & _).
    destruct (waits_own_act a q1 q2 Hq1 Ha) as (_ & _ & Hres).
    destruct (Hres Hne) as (tid' & c' & Hr).
    exists tid', c'. split; [| exact Hr].
    pose proof (returned_stays tid l1 p' q1 Hdone Hl1) as Hd1.
    intros ->. destruct a as [| | | | tid'' [| n [e' |] | st e' | |]]; simpl in Hr;
      try contradiction.
    + destruct Hr as (_ & Ht1 & _). rewrite Hd1 in Ht1. discriminate Ht1.
    + destruct Hr as (_ & _ & (n' & Ht1) & _). rewrite Hd1 in Ht1. discriminate Ht1.
Qed.

Lemma B_called_reached : acts (run_A ++ [CallExec; Go 3 RNone]) abc = Ok B_called.
Proof. vm_compute. reflexivity. Qed.

(** [B] is detached: its goroutine returns at once.  While its log is read
    the pipeline advances, [C] runs and exits 1: the pipeline waited for the
    containers of [A] and [C], never for that of [B], and the stored error is
    the failure of [C]. *)
Lemma detached_returns_at_once_B :
  exists p', run 3 (RStart "idB" None) B_called = Ok p' /\
    Err p' = None /\ waits (calls p') = ["idA"] /\
    exists p'', acts sidecar p' = Ok p'' /\
      tasks p'' !! 3 = Some TDone /\
      run 3 (exited 1) p'' = Disabled /\
      Err p'' = Some (ExitError "C" 1) /\ waits (calls p'') = ["idA"; "idC"].
Proof.
  assert (Hown : waits_own B_called).
  { apply (waits_own_acts _ abc B_called (waits_own_Load _) B_called_reached). }
  destruct (detached_returns_at_once stepB "idB" B_called eq_refl Hown)
    as (_ & _ & H).
  destruct (H 3 eq_refl) as (p' & Hrun & Herr & _ & Hw & _ & Hlater).
  exists p'. split; [exact Hrun |]. split; [exact Herr |]. split; [exact Hw |].
  assert (E : exists q, acts sidecar p' = Ok q /\
                Err q = Some (ExitError "C" 1) /\ waits (calls q) = ["idA"; "idC"]).
  { vm_compute in Hrun. injection Hrun as <-. eexists. vm_compute.
    split; [reflexivity |]. split; reflexivity. }
  destruct E as (q & E & He & Hwq). exists q. split; [exact E |].
  destruct (Hlater sidecar q E) as (Hdone & Hno & _).
  split; [exact Hdone |]. split; [apply Hno |]. split; [exact He | exact Hwq].
Defined.

(** ** Log forwarding and the result of the step *)

(** A forwarding goroutine writes [pipe], [calls] and its own state only. *)
Lemma forwarding_frame (tid : nat) (r : Reply) (p q : Pipeline) (t : Task) :
  tasks p !! tid = Some t -> forwarding t = true -> run tid r p = Ok q ->
  err q = err p /\ head q = head p /\ tail q = tail p /\ nodes q = nodes p /\
  next q = next p /\ done q = done p /\ containers q = containers p /\
  exists t', tasks q = <[tid := t']> (tasks p).
Proof.
  intros Ht Hf H. apply run_goes in H.
  goes_cases H; rewrite Ht in Ht0; injection Ht0 as ->; try discriminate Hf;
    repeat split; eexists; reflexivity.
Qed.

Lemma resolved_run_wait (tid : nat) (c : yaml_Container) (name : string)
    (state : option State) (e : option error) (p : Pipeline) :
  tasks p !! tid = Some (TExecWait c name) ->
  observe resolved (run tid (RWait state e) p) =
    match exec_wait c state e with
    | Some r => Some (match r with Some e' => Some e' | None => err p end,
                      head p, next p, done p, containers p, Some (advance_task p))
    | None => None
    end.
Proof.
  intros Ht. unfold run. rewrite Ht.
  destruct (exec_wait c state e) as [r |]; [| reflexivity].
  rewrite Exec_return_unfold. unfold observe, resolved, Err. simpl.
  assert (Hlt : tid < length (tasks p)) by (eapply lookup_lt_Some; exact Ht).
  rewrite insert_app_l by exact Hlt. rewrite last_snoc. reflexivity.
Qed.

(** C8: when [ContainerLogs] fails the forwarding goroutine returns: it
    sends nothing on [pipe] and touches neither the stored error nor the
    signals.  A stream that ends at once gives no record either.  Whatever
    the forwarding goroutine does, the step resolves as it would without it:
    the same stored error and the same advance. *)
Theorem logs_failure_swallowed (p : Pipeline) (tid : nat) (c : yaml_Container)
    (name : string) (Ht : tasks p !! tid = Some (TLogs c name)) :
  (forall e now, exists q,
     run tid (RLogs (Some e) now) p = Ok q /\
     tasks q = <[tid := TDone]> (tasks p) /\
     calls q = calls p ++ [ContainerLogs name (Some e)] /\
     pipe q = pipe p /\ err q = err p /\ head q = head p /\
     next q = next p /\ done q = done p /\ containers q = containers p) /\
  (forall now t, exists q,
     acts [Go tid (RLogs None now); Go tid (RScan None t)] p = Ok q /\
     tasks q = <[tid := TDone]> (tasks p) /\
     pipe q = pipe p /\ err q = err p /\ head q = head p /\
     next q = next p /\ done q = done p /\ containers q = containers p) /\
  (forall r q tid' c' name' state e,
     run tid r p = Ok q ->
     tasks p !! tid' = Some (TExecWait c' name') ->
     observe resolved (run tid' (RWait state e) q) =
     observe resolved (run tid' (RWait state e) p)).
Proof.
  assert (Hlt : tid < length (tasks p)) by (eapply lookup_lt_Some; exact Ht).
  split; [| split].
  - intros e now. eexists. split; [unfold run; rewrite Ht; reflexivity |].
    repeat split.
  - intros now t. eexists. split.
    + simpl. unfold run at 1. rewrite Ht. simpl.
      unfold run, set_task. simpl. rewrite list_lookup_insert_eq by exact Hlt.
      reflexivity.
    + simpl. rewrite list_insert_insert_eq. repeat split.
  - intros r q tid' c' name' state e Hrun Ht'.
    destruct (forwarding_frame tid r p q _ Ht eq_refl Hrun)
      as (He & Hh & Htl & _ & Hn & Hd & Hc & t' & Htasks).
    assert (Hne : tid <> tid') by (intros ->; congruence).
    assert (Ht'' : tasks q !! tid' = Some (TExecWait c' name')).
    { rewrite Htasks, list_lookup_insert_ne by exact Hne. exact Ht'. }
    rewrite (resolved_run_wait _ _ _ _ _ _ Ht''), (resolved_run_wait _ _ _ _ _ _ Ht').
    unfold advance_task. rewrite He, Hh, Htl, Hn, Hd, Hc. reflexivity.
Qed.

(** [A] is blocked in [ContainerWait] and its log cannot be opened. *)
Lemma logs_failure_swallowed_A :
  exists q, run 1 (RLogs (Some (EngineError "no logs")) 0) blocked_A = Ok q /\
    sent (pipe q) = [] /\ err q = None /\
    observe resolved (run 0 (exited 0) q) =
    observe resolved (run 0 (exited 0) blocked_A).
Proof.
  destruct (logs_failure_swallowed blocked_A 1 stepA "idA" eq_refl)
    as (Hfail & _ & Hsame).
  destruct (Hfail (EngineError "no logs") 0%Z)
    as (q & Hq & _ & _ & Hpipe & Herr & _).
  exists q. split; [exact Hq |]. rewrite Hpipe, Herr.
  split; [reflexivity |]. split; [reflexivity |].
  apply (Hsame _ q 0 stepA "idA" _ _ Hq eq_refl).
Defined.

(** The log of [A] ends at once and [A] exits 0: nothing was sent on
    [pipe], no error is stored, the pipeline advances. *)
Example empty_log_success :
  observe (fun q => (sent (pipe q), Err q, last (tasks q)))
    (acts [Go 1 (RLogs None 0); Go 1 (RScan None 5); Go 0 (exited 0)] blocked_A)
  = Some ([], None, Some TStepNext).
Proof. vm_compute. reflexivity. Qed.

(** ** A failing step *)

(** The goroutine of [Exec] returns from [exec] with the failure [e], in a
    state [q] that differs from [p] in the calls recorded only. *)
Lemma failure_advances (tid : nat) (t : Task) (e : error) (p q : Pipeline) :
  tasks p !! tid = Some t ->
  q = set_calls (calls q) p ->
  let p' := set_task tid TDone (Exec_return (Some e) q) in
  Err p' = Some e /\ head p' = head p /\ next p' = next p /\ done p' = done p /\
  tasks p' = <[tid := TDone]> (tasks p) ++ [advance_task p] /\
  (head p = tail p -> closed (done p) = false ->
   exists p'', run (length (tasks p)) RNone p' = Ok p'' /\
     done p'' = send None (done p) /\ next p'' = next p /\
     head p'' = head p /\ Err p'' = Some e) /\
  (head p <> tail p -> forall el, deref p = Some el -> closed (next p) = false ->
   exists p'', acts [Go (length (tasks p)) RNone; Go (length (tasks p)) RNone] p' = Ok p'' /\
     head p'' = el_next el /\ next p'' = send None (next p) /\
     done p'' = done p /\ Err p'' = Some e) /\
  ((forall tid' t', tid' <> tid -> tasks p !! tid' = Some t' -> in_flight t' = false) ->
   forall l p'', Forall not_Exec l -> acts l p' = Ok p'' ->
     Err p'' = Some e /\ starts (calls p'') = starts (calls q)).
Proof.
  intros Ht Hq p'. subst p'. rewrite Hq. clear Hq.
  assert (Hlt : tid < length (tasks p)) by (eapply lookup_lt_Some; exact Ht).
  rewrite Exec_return_unfold.
  change (advance_task (set_calls (calls q) p)) with (advance_task p).
  assert (Htasks : tasks (set_task tid TDone
            (spawn (advance_task p) (set_err (Some e) (set_calls (calls q) p))))
          = <[tid := TDone]> (tasks p) ++ [advance_task p]).
  { simpl. apply insert_app_l. exact Hlt. }
  assert (Hk : forall x, (<[tid := TDone]> (tasks p) ++ [x]) !! length (tasks p) = Some x).
  { intros x. apply list_lookup_middle. rewrite length_insert. reflexivity. }
  do 4 (split; [reflexivity |]). split; [exact Htasks |].
  split; [| split].
  - intros Heq Hopen. eexists. split.
    + apply run_send_done; [| exact Hopen]. rewrite Htasks.
      unfold advance_task. rewrite decide_True by exact Heq. apply Hk.
    + repeat split.
  - intros Hne el Hel Hopen. eexists. split.
    + cbn [acts act]. rewrite (run_step_next _ el).
      * rewrite run_send_next; [reflexivity | | exact Hopen].
        simpl. rewrite insert_app_l by exact Hlt.
        apply list_lookup_insert_eq.
        rewrite length_app, length_insert. simpl. lia.
      * rewrite Htasks. unfold advance_task. rewrite decide_False by exact Hne.
        apply Hk.
      * exact Hel.
    + repeat split.
  - intros Hsingle l p'' Hl Hrun.
    assert (Hsettled : settled (set_task tid TDone
              (Exec_return (Some e) (set_calls (calls q) p)))).
    { apply (settled_returned tid t (Some e) p); try assumption; try reflexivity.
      left. reflexivity. }
    rewrite Exec_return_unfold in Hsettled.
    destruct (settled_acts l _ p'' Hsettled Hl Hrun) as (_ & He & _ & Hs).
    split; [exact He | exact Hs].
Qed.

Lemma signals_clean_spawn (t : Task) (p : Pipeline) :
  sends_clean t = true -> signals_clean p -> signals_clean (spawn t p).
Proof.
  intros Ht (Hd & Hn & Hts). split; [exact Hd |]. split; [exact Hn |].
  simpl. apply Forall_app. split; [exact Hts |].
  constructor; [exact Ht | constructor].
Qed.

Lemma signals_clean_set_task (tid : nat) (t : Task) (p : Pipeline) :
  sends_clean t = true -> signals_clean p -> signals_clean (set_task tid t p).
Proof.
  intros Ht (Hd & Hn & Hts). split; [exact Hd |]. split; [exact Hn |].
  simpl. apply Forall_insert; assumption.
Qed.

Lemma signals_clean_same (p q : Pipeline) :
  sent (done q) = sent (done p) -> sent (next q) = sent (next p) ->
  tasks q = tasks p -> signals_clean p -> signals_clean q.
Proof. unfold signals_clean. intros -> -> ->. tauto. Qed.

Lemma sends_clean_advance (p : Pipeline) : sends_clean (advance_task p) = true.
Proof. unfold advance_task. destruct (decide _); reflexivity. Qed.

Lemma signals_clean_act (a : Action) (p p' : Pipeline) :
  signals_clean p -> act a p = Ok p' -> signals_clean p'.
Proof.
  intros Hp H. destruct a; simpl in H.
  - injection H as <-. apply signals_clean_spawn; [reflexivity | exact Hp].
  - injection H as <-. unfold Skip. rewrite step_spawn.
    apply signals_clean_spawn; [apply sends_clean_advance | exact Hp].
  - injection H as <-. apply signals_clean_spawn; [reflexivity | exact Hp].
  - apply Teardown_Ok in H as (_ & _ & ->). revert Hp.
    apply signals_clean_same; reflexivity.
  - apply run_goes in H.
    goes_cases H;
      try (apply signals_clean_set_task; [reflexivity |];
           revert Hp; apply signals_clean_same; reflexivity).
    + apply signals_clean_set_task; [reflexivity |]. rewrite Exec_return_unfold.
      apply signals_clean_spawn; [apply sends_clean_advance |].
      apply exec_start_Returned in Hs0 as [(e' & -> & -> & ->) | (-> & _ & -> & ->)].
      * revert Hp. apply signals_clean_same; reflexivity.
      * apply (signals_clean_same (spawn (TLogs c0 name0) p)); try reflexivity.
        apply signals_clean_spawn; [reflexivity | exact Hp].
    + apply signals_clean_set_task; [reflexivity |].
      apply exec_start_Blocked in Hs0 as (-> & _ & -> & ->).
      apply (signals_clean_same (spawn (TLogs c0 name0) p)); try reflexivity.
      apply signals_clean_spawn; [reflexivity | exact Hp].
    + apply signals_clean_set_task; [reflexivity |]. rewrite Exec_return_unfold.
      apply signals_clean_spawn; [apply sends_clean_advance |].
      revert Hp. apply signals_clean_same; reflexivity.
    + apply signals_clean_set_task; [reflexivity |].
      destruct Hp as (Hd & Hn & Hts). split; [exact Hd |]. split; [| exact Hts].
      simpl. apply Forall_app. split; [exact Hn |]. constructor; [reflexivity | constructor].
    + apply signals_clean_set_task; [reflexivity |].
      destruct Hp as (Hd & Hn & Hts). split; [| split; [exact Hn | exact Hts]].
      simpl. apply Forall_app. split; [exact Hd |].
      constructor; [| constructor].
      rewrite Forall_lookup in Hts. apply (Hts _ _ Ht0).
Qed.

(** C1, as the code has it: a failure of the step, of [ContainerStart] or
    found after [ContainerWait], is stored as the error of the pipeline, and
    the advance transition runs as after a success.  Nil is delivered, on
    [done] when the step is the tail, else on [next] after [head] moved to
    the successor.  The pipeline starts no later step by itself: while the
    controller does not call [Exec], [ContainerStart] is not called and the
    stored error stays.  No schedule delivers anything but nil or [ErrTerm]
    on [done], or anything but nil on [next]. *)
Theorem failure_stored_then_advance (p : Pipeline) (tid : nat) (e : error) :
  (forall c name,
     tasks p !! tid = Some (TExecStart c) ->
     exists p', run tid (RStart name (Some e)) p = Ok p' /\
       starts (calls p') = starts (calls p) ++ [c] /\
       containers p' = containers p /\
       Err p' = Some e /\ head p' = head p /\ next p' = next p /\ done p' = done p /\
       tasks p' = <[tid := TDone]> (tasks p) ++ [advance_task p] /\
       (head p = tail p -> closed (done p) = false ->
        exists p'', run (length (tasks p)) RNone p' = Ok p'' /\
          done p'' = send None (done p) /\ next p'' = next p /\
          head p'' = head p /\ Err p'' = Some e) /\
       (head p <> tail p -> forall el', deref p = Some el' -> closed (next p) = false ->
        exists p'', acts [Go (length (tasks p)) RNone; Go (length (tasks p)) RNone] p'
                    = Ok p'' /\
          head p'' = el_next el' /\ next p'' = send None (next p) /\
          done p'' = done p /\ Err p'' = Some e) /\
       ((forall tid' t', tid' <> tid -> tasks p !! tid' = Some t' -> in_flight t' = false) ->
        forall l p'', Forall not_Exec l -> acts l p' = Ok p'' ->
          Err p'' = Some e /\ starts (calls p'') = starts (calls p'))) /\
  (forall c name state e0,
     tasks p !! tid = Some (TExecWait c name) ->
     exec_wait c state e0 = Some (Some e) ->
     exists p', run tid (RWait state e0) p = Ok p' /\
       calls p' = calls p /\ containers p' = containers p /\
       Err p' = Some e /\ head p' = head p /\ next p' = next p /\ done p' = done p /\
       tasks p' = <[tid := TDone]> (tasks p) ++ [advance_task p] /\
       (head p = tail p -> closed (done p) = false ->
        exists p'', run (length (tasks p)) RNone p' = Ok p'' /\
          done p'' = send None (done p) /\ next p'' = next p /\
          head p'' = head p /\ Err p'' = Some e) /\
       (head p <> tail p -> forall el', deref p = Some el' -> closed (next p) = false ->
        exists p'', acts [Go (length (tasks p)) RNone; Go (length (tasks p)) RNone] p'
                    = Ok p'' /\
          head p'' = el_next el' /\ next p'' = send None (next p) /\
          done p'' = done p /\ Err p'' = Some e) /\
       ((forall tid' t', tid' <> tid -> tasks p !! tid' = Some t' -> in_flight t' = false) ->
        forall l p'', Forall not_Exec l -> acts l p' = Ok p'' ->
          Err p'' = Some e /\ starts (calls p'') = starts (calls p'))) /\
  (signals_clean p -> forall l q, acts l p = Ok q ->
     Forall (fun v => clean v = true) (sent (done q)) /\
     Forall (fun v => v = None) (sent (next q))).
Proof.
  split; [| split].
  - intros c name Ht.
    pose (q := call (ContainerStart c name (Some e)) p).
    destruct (failure_advances tid _ e p q Ht eq_refl)
      as (Herr & Hh & Hn & Hd & Htasks & Htail & Hmid & Hlater).
    exists (set_task tid TDone (Exec_return (Some e) q)).
    split; [unfold run; rewrite Ht; reflexivity |].
    assert (Hc : calls (set_task tid TDone (Exec_return (Some e) q)) = calls q).
    { rewrite Exec_return_unfold. reflexivity. }
    split; [rewrite Hc; simpl; rewrite starts_snoc; reflexivity |].
    split; [rewrite Exec_return_unfold; reflexivity |].
    do 7 (split; [assumption |]).
    intros Hsingle l p'' Hl Hrun. rewrite Hc. eapply Hlater; eassumption.
  - intros c name state e0 Ht Hw.
    assert (Hq : p = set_calls (calls p) p) by (destruct p; reflexivity).
    destruct (failure_advances tid _ e p p Ht Hq)
      as (Herr & Hh & Hn & Hd & Htasks & Htail & Hmid & Hlater).
    exists (set_task tid TDone (Exec_return (Some e) p)).
    split; [unfold run; rewrite Ht, Hw; reflexivity |].
    assert (Hc : calls (set_task tid TDone (Exec_return (Some e) p)) = calls p).
    { rewrite Exec_return_unfold. reflexivity. }
    split; [exact Hc |].
    split; [rewrite Exec_return_unfold; reflexivity |].
    do 7 (split; [assumption |]).
    intros Hsingle l p'' Hl Hrun. rewrite Hc. eapply Hlater; eassumption.
  - intros Hp l q Hrun.
    assert (Hq : signals_clean q).
    { eapply (acts_invariant signals_clean); [| exact Hp | exact Hrun].
      intros a q1 q2 Hq1 Ha. eapply signals_clean_act; eassumption. }
    split; apply Hq.
Qed.

(** [A] exits 1: its failure is stored, nil is delivered on [next], nothing
    is delivered on [done], [head] is [B], and [B] is started when the
    controller calls [Exec].  [C], the tail, exits 1: nil is delivered on
    [done]. *)
Lemma failure_does_not_end_pipeline :
  observe (fun q => (Err q, sent (next q), sent (done q), Head q))
    (acts [CallExec; Go 0 RNone; Go 0 (RStart "idA" None); Go 0 (exited 1);
           Go 2 RNone; Go 2 RNone] abc)
  = Some (Some (ExitError "A" 1), [None], [], Some stepB) /\
  observe (fun q => (Err q, starts (calls q), containers q))
    (acts [CallExec; Go 0 RNone; Go 0 (RStart "idA" None); Go 0 (exited 1);
           Go 2 RNone; Go 2 RNone;
           CallExec; Go 3 RNone; Go 3 (RStart "idB" None)] abc)
  = Some (Some (ExitError "A" 1), [stepA; stepB], ["idA"; "idB"]) /\
  observe (fun q => (Err q, sent (done q))) (acts run_ABC abc)
  = Some (Some (ExitError "C" 1), [None]).
Proof. vm_compute. repeat split. Qed.

(** [A] is blocked in [ContainerWait] and is OOM-killed. *)
Lemma failure_stored_then_advance_A :
  exists p', run 0 oom_killed blocked_A = Ok p' /\
    Err p' = Some (OomError "A") /\
    exists p'', acts [Go 2 RNone; Go 2 RNone] p' = Ok p'' /\
      head p'' = Some 1 /\ sent (next p'') = [None] /\ sent (done p'') = [] /\
      Err p'' = Some (OomError "A").
Proof.
  destruct (failure_stored_then_advance blocked_A 0 (OomError "A")) as (_ & H & _).
  destruct (H stepA "idA" (Some (mkState 137 true)) None eq_refl eq_refl)
    as (p' & Hrun & _ & _ & Herr & _ & _ & _ & _ & _ & Hmid & _).
  exists p'. split; [exact Hrun |]. split; [exact Herr |].
  assert (Hne : head blocked_A <> tail blocked_A) by discriminate.
  destruct (Hmid Hne (mkElement stepA (Some 1)) eq_refl eq_refl)
    as (p'' & Hacts & Hh & Hn & Hd & He).
  exists p''. split; [exact Hacts |]. rewrite Hh, Hn, Hd, He. repeat split.
Defined.

(** ** Go's [float64] *)

Section Float64.

Local Open Scope Z_scope.























(** From [2^24] seconds on the sum is rounded to a [float64] that can be
    the next whole second. *)
Example Seconds_int64_rounds_up :
  Seconds_int64 16777216999999999 = 16777217 /\
  16777216999999999 / 1000000000 = 16777216.
Proof. split; vm_compute; reflexivity. Qed.

End Float64.


(** ** Log records *)











(** The time of a record is not the time since the step started, and not
    always the whole seconds.  [A] is started at instant 0 and its log is
    opened 3 s later: the line read at 3.5 s gets the time 0, where 3 s have
    elapsed since the start.  And 16777216.999999999 s after the clock was
    read, the sum in [float64] is 16777217. *)
Lemma Time_is_not_since_the_start :
  forallb on_clock slow_logs = true /\
  started_at "idA" slow_logs = Some 0%Z /\
  observe (fun q => sent (pipe q)) (acts (map snd slow_logs) abc)
  = Some [mkLine "A" 0 0 "hello"] /\
  elapsed_since_start 0 3500000000 = 3%Z /\
  Seconds_int64 (Since 0 16777216999999999) = 16777217%Z /\
  Z.quot (16777216999999999 - 0) 1000000000 = 16777216%Z.
Proof. repeat split; vm_compute; reflexivity. Qed.

(** The same lines, read while [A] exits 1, the advance goroutine runs and
    the controller calls [Stop]. *)
Example forward_interleaved_A :
  observe (fun q => sent (pipe q))
    (acts [Go 1 (RLogs None 1000); Go 0 (exited 1);
           Go 1 (RScan (Some "hello") 900001000); CallStop; Go 2 RNone;
           Go 1 RNone; Go 1 (RScan (Some "world") 2500001000); Go 2 RNone;
           Go 1 RNone; Go 1 (RScan None 2600000000)] blocked_A)
  = Some [mkLine "A" 0 0 "hello"; mkLine "A" 2 1 "world"].
Proof. vm_compute. reflexivity. Qed.

(** ** The list of the steps is never rewritten *)

Lemma links_kept (a : Action) (p p' : Pipeline) :
  act a p = Ok p' -> tail p' = tail p /\ nodes p' = nodes p.
Proof.
  intros H. destruct a; simpl in H.
  - injection H as <-. split; reflexivity.
  - injection H as <-. unfold Skip. rewrite step_spawn. split; reflexivity.
  - injection H as <-. split; reflexivity.
  - apply Teardown_Ok in H as (_ & _ & ->). split; reflexivity.
  - apply run_goes in H. goes_cases H; try (split; reflexivity).
    + rewrite Exec_return_unfold.
      apply exec_start_Returned in Hs0 as [(e' & -> & -> & ->) | (-> & _ & -> & ->)];
        split; reflexivity.
    + apply exec_start_Blocked in Hs0 as (-> & _ & -> & ->). split; reflexivity.
    + rewrite Exec_return_unfold. split; reflexivity.
Qed.

(** X1: no call and no schedule changes the links of the list or the tail:
    [Tail] returns the same step throughout. *)
Theorem Tail_constant (l : list Action) (p q : Pipeline) :
  acts l p = Ok q -> tail q = tail p /\ nodes q = nodes p /\ Tail q = Tail p.
Proof.
  intros H.
  assert (Hk : tail q = tail p /\ nodes q = nodes p).
  { apply (acts_invariant (fun q => tail q = tail p /\ nodes q = nodes p))
      with (l := l) (p := p); [| split; reflexivity | exact H].
    intros a q1 q2 [Ht Hn] Ha. destruct (links_kept a q1 q2 Ha) as [Ht' Hn'].
    split; congruence. }
  destruct Hk as [Ht Hn]. unfold Tail. rewrite Ht, Hn. repeat split.
Qed.

Lemma Tail_constant_ABC :
  Tail abc = Some stepC /\ Tail finished_ABC = Some stepC.
Proof.
  destruct (Tail_constant run_ABC abc finished_ABC finished_ABC_reached)
    as (_ & _ & ->).
  split; reflexivity.
Defined.

(** ** Counting *)

(** The weight of the pool. *)
Lemma weight_spawn (w : Task -> nat) (t : Task) (p : Pipeline) :
  sum_list_with w (tasks (spawn t p)) = sum_list_with w (tasks p) + w t.
Proof. simpl. rewrite sum_list_with_app. simpl. lia. Qed.

Lemma weight_insert (w : Task -> nat) (l : list Task) : forall i x y,
  l !! i = Some x ->
  sum_list_with w (<[i := y]> l) + w x = sum_list_with w l + w y.
Proof.
  induction l as [| z l IH]; intros i x y Hi; [discriminate Hi |].
  destruct i as [| i]; simpl in *.
  - injection Hi as ->. lia.
  - specialize (IH i x y Hi). lia.
Qed.

Lemma weight_set_task (w : Task -> nat) (tid : nat) (t t' : Task) (p : Pipeline) :
  tasks p !! tid = Some t ->
  sum_list_with w (tasks (set_task tid t' p)) + w t = sum_list_with w (tasks p) + w t'.
Proof. intros Ht. simpl. apply weight_insert. exact Ht. Qed.

(** The goroutine [tid], in state [t], returns from [exec] in the state [q],
    whose pool is that of [p] and at most a forwarding goroutine. *)
Lemma weight_returned (w : Task -> nat) (tid : nat) (t : Task)
    (r : option error) (p q : Pipeline) (more : list Task) :
  tasks p !! tid = Some t -> tasks q = tasks p ++ more ->
  sum_list_with w (tasks (set_task tid TDone (Exec_return r q))) + w t =
    sum_list_with w (tasks p) + sum_list_with w more
      + w (advance_task q) + w TDone.
Proof.
  intros Ht Hq. rewrite Exec_return_unfold.
  assert (Ht' : tasks (spawn (advance_task q)
                         (set_err (kept (err q) r) q)) !! tid = Some t).
  { simpl. rewrite Hq. apply lookup_app_l_Some, lookup_app_l_Some. exact Ht. }
  change (match r with Some e => Some e | None => err q end) with (kept (err q) r).
  pose proof (weight_set_task w tid t TDone _ Ht') as H.
  rewrite weight_spawn in H. simpl tasks in H. rewrite Hq in H.
  rewrite sum_list_with_app in H. simpl tasks. rewrite Hq. exact H.
Qed.

Lemma owes_advance (p : Pipeline) : owes (advance_task p) = 1.
Proof. unfold advance_task. destruct (decide _); reflexivity. Qed.

Lemma signals_act (a : Action) (p p' : Pipeline) :
  act a p = Ok p' -> signals p' = signals p + asks a.
Proof.
  intros H. unfold signals. destruct a; simpl in H.
  - injection H as <-. unfold Exec. rewrite weight_spawn. simpl. lia.
  - injection H as <-. unfold Skip. rewrite step_spawn, weight_spawn, owes_advance.
    simpl. lia.
  - injection H as <-. unfold Stop. rewrite weight_spawn. simpl. lia.
  - apply Teardown_Ok in H as (_ & _ & ->). simpl. lia.
  - apply run_goes in H. simpl asks. goes_cases H.
    + pose proof (weight_set_task owes tid _ (TExecStart (el_Container el0)) p Ht0).
      simpl in *. lia.
    + apply exec_start_Returned in Hs0 as [(e' & -> & -> & ->) | (-> & _ & -> & ->)].
      * pose proof (weight_returned owes tid _ (Some e')
                      p (call (ContainerStart c0 name0 (Some e')) p) [] Ht0) as H.
        rewrite owes_advance in H. simpl in H. rewrite app_nil_r in H.
        specialize (H eq_refl). rewrite Exec_return_unfold in *. simpl in *. lia.
      * pose proof (weight_returned owes tid _ None
                      p (started_by c0 name0 p) [TLogs c0 name0] Ht0 eq_refl) as H.
        rewrite owes_advance in H. rewrite Exec_return_unfold in *. simpl in *. lia.
    + apply exec_start_Blocked in Hs0 as (-> & _ & -> & ->).
      assert (Ht' : tasks (call (ContainerWait name0) (started_by c0 name0 p)) !! tid
                    = Some (TExecStart c0)).
      { simpl. apply lookup_app_l_Some. exact Ht0. }
      pose proof (weight_set_task owes tid _ (TExecWait c0 name0) _ Ht') as H.
      simpl in H. rewrite sum_list_with_app in H. simpl in *. lia.
    + pose proof (weight_returned owes tid _ r0 p p [] Ht0) as H.
      rewrite owes_advance, app_nil_r in H. specialize (H eq_refl).
      rewrite Exec_return_unfold in *. simpl in *. lia.
    + pose proof (weight_set_task owes tid _ TDone p Ht0). simpl in *. lia.
    + pose proof (weight_set_task owes tid _ (TScan c0 name0 now0 0) p Ht0).
      simpl in *. lia.
    + pose proof (weight_set_task owes tid _ TDone p Ht0). simpl in *. lia.
    + pose proof (weight_set_task owes tid _
                    (TSendLine c0 name0 now0 num0
                       (mkLine (Name c0) (Seconds_int64 (Since now0 t0)) num0 s0))
                    p Ht0).
      simpl in *. lia.
    + pose proof (weight_set_task owes tid _ (TScan c0 name0 now0 (int_incr num0)) p Ht0).
      simpl in *. lia.
    + pose proof (weight_set_task owes tid _ TSendNext p Ht0). simpl in *. lia.
    + pose proof (weight_set_task owes tid _ TDone p Ht0). simpl in *.
      rewrite length_app. simpl. lia.
    + pose proof (weight_set_task owes tid _ TDone p Ht0). simpl in *.
      rewrite length_app. simpl. lia.
Qed.

(** X2: every call of [Exec], [Skip] and [Stop] gives exactly one signal on
    [next] or [done], delivered or still owed by a goroutine; nothing else
    gives one, and none is lost. *)
Theorem one_signal_per_call (l : list Action) (p q : Pipeline) :
  acts l p = Ok q -> signals q = signals p + sum_list_with asks l.
Proof.
  revert p. induction l as [| a l IH]; intros p H; simpl in H.
  - injection H as <-. simpl. lia.
  - destruct (act a p) as [p1 | |] eqn:Ha; try discriminate.
    rewrite (IH p1 H), (signals_act a p p1 Ha). simpl. lia.
Qed.

(** The three steps ran: two signals on [next], one on [done], none owed. *)
Lemma one_signal_per_call_ABC :
  length (sent (next finished_ABC)) + length (sent (done finished_ABC)) = 3 /\
  signals finished_ABC = 3.
Proof.
  pose proof (one_signal_per_call run_ABC abc finished_ABC finished_ABC_reached) as H.
  split; [reflexivity | exact H].
Defined.









(** ** The order of the calls *)

Lemma started_elem (cs : list Call) (c : yaml_Container) (name : string) :
  ContainerStart c name None ∈ cs ->
  name ∈ started cs /\ Name c ∈ started_names cs.
Proof.
  intros H. split; apply list_elem_of_omap; eexists; (split; [exact H | reflexivity]).
Qed.

Lemma started_more (cs more : list Call) (name : string) :
  name ∈ started cs -> name ∈ started (cs ++ more).
Proof. intros H. unfold started. rewrite omap_app. apply elem_of_app. left. exact H. Qed.

Lemma started_names_more (cs more : list Call) (name : string) :
  name ∈ started_names cs -> name ∈ started_names (cs ++ more).
Proof.
  intros H. unfold started_names. rewrite omap_app. apply elem_of_app. left. exact H.
Qed.

Lemma holds_more (cs more : list Call) (t : Task) :
  holds cs t -> holds (cs ++ more) t.
Proof.
  destruct t; simpl; try tauto; rewrite ?elem_of_app; tauto.
Qed.

Lemma in_order_app (cs more : list Call) :
  in_order cs ->
  (forall k c, more !! k = Some c -> needs c (cs ++ take k more)) ->
  in_order (cs ++ more).
Proof.
  intros Hcs Hmore i c Hi. apply lookup_app_Some in Hi as [Hi | [Hge Hi]].
  - rewrite take_app_le by (apply lookup_lt_Some in Hi; lia). apply Hcs, Hi.
  - rewrite take_app, take_ge by lia. apply Hmore, Hi.
Qed.

Lemma in_order_snoc (cs : list Call) (c : Call) :
  in_order cs -> needs c cs -> in_order (cs ++ [c]).
Proof.
  intros Hcs Hc. apply in_order_app; [exact Hcs |].
  intros [| k] c' Hk; [| destruct k; discriminate Hk].
  injection Hk as <-. simpl. rewrite app_nil_r. exact Hc.
Qed.

Lemma in_order_removals (cs : list Call) (rm : nat -> option error)
    (ids : list string) :
  in_order cs -> (forall id, id ∈ ids -> id ∈ started cs) ->
  in_order (cs ++ removals rm ids).
Proof.
  intros Hcs Hids. apply in_order_app; [exact Hcs |].
  intros k c Hk. unfold removals in Hk. rewrite list_lookup_imap in Hk.
  destruct (ids !! k) as [id |] eqn:Hid; [| discriminate Hk].
  injection Hk as <-. simpl. apply started_more, Hids.
  eapply list_elem_of_lookup_2, Hid.
Qed.

(** From an orderly state to the next: the calls [more] are in order, the
    goroutine [tid] moves on to [t'], the goroutines [new] start, the records
    [ls] are sent. *)
Lemma orderly_next (p p' : Pipeline) (more : list Call) (tid : nat) (t' : Task)
    (new : list Task) (ls : list Line) :
  orderly p ->
  calls p' = calls p ++ more ->
  in_order (calls p ++ more) ->
  tasks p' = <[tid := t']> (tasks p) ++ new ->
  holds (calls p ++ more) t' -> Forall (holds (calls p ++ more)) new ->
  containers p' = containers p ++ started more ->
  sent (pipe p') = sent (pipe p) ++ ls ->
  Forall (fun l => Proc l ∈ started_names (calls p ++ more)) ls ->
  orderly p'.
Proof.
  intros (Ho & Ht & Hc & Hp) Hcalls Hin Htasks Ht' Hnew Hcont Hpipe Hls.
  unfold orderly. rewrite Hcalls, Htasks, Hcont, Hpipe.
  split; [exact Hin |]. split; [| split].
  - apply Forall_app. split; [| exact Hnew].
    apply Forall_insert; [| exact Ht'].
    eapply Forall_impl; [exact Ht |]. intros t. apply holds_more.
  - rewrite Hc. unfold started. rewrite omap_app. reflexivity.
  - apply Forall_app. split; [| exact Hls].
    eapply Forall_impl; [exact Hp |]. intros l. apply started_names_more.
Qed.

(** A step that makes no call and sends nothing. *)
Lemma orderly_quiet (p p' : Pipeline) (tid : nat) (t' : Task) (new : list Task) :
  orderly p -> calls p' = calls p ->
  tasks p' = <[tid := t']> (tasks p) ++ new ->
  holds (calls p) t' -> Forall (holds (calls p)) new ->
  containers p' = containers p -> pipe p' = pipe p ->
  orderly p'.
Proof.
  intros Hp Hcalls Htasks Ht' Hnew Hcont Hpipe.
  apply (orderly_next p p' [] tid t' new []); rewrite ?app_nil_r;
    try assumption; try (rewrite Hpipe; reflexivity); try apply Hp.
  constructor.
Qed.

Lemma holds_advance (cs : list Call) (p : Pipeline) : holds cs (advance_task p).
Proof. unfold advance_task. destruct (decide _); exact I. Qed.

Lemma orderly_spawn (t : Task) (p : Pipeline) :
  holds (calls p) t -> orderly p -> orderly (spawn t p).
Proof.
  intros Ht Hp.
  apply (orderly_quiet p _ (length (tasks p)) TDone [t]); try assumption;
    try reflexivity; try exact I.
  - simpl. rewrite list_insert_ge by lia. reflexivity.
  - constructor; [exact Ht | constructor].
Qed.

Lemma orderly_act (a : Action) (p p' : Pipeline) :
  orderly p -> act a p = Ok p' -> orderly p'.
Proof.
  intros Hp H. destruct a; simpl in H.
  - injection H as <-. apply orderly_spawn; [exact I | exact Hp].
  - injection H as <-. unfold Skip. rewrite step_spawn.
    apply orderly_spawn; [apply holds_advance | exact Hp].
  - injection H as <-. apply orderly_spawn; [exact I | exact Hp].
  - apply Teardown_Ok in H as (_ & _ & ->).
    apply (orderly_next p _ (removals rm (containers p))
             (length (tasks p)) TDone [] []); try assumption; try reflexivity;
      try exact I; try constructor.
    + apply in_order_removals; [apply Hp |].
      destruct Hp as (_ & _ & -> & _). tauto.
    + simpl. rewrite list_insert_ge by lia. rewrite app_nil_r. reflexivity.
    + simpl. rewrite started_removals, app_nil_r. reflexivity.
    + simpl. rewrite app_nil_r. reflexivity.
  - apply run_goes in H.
    pose proof Hp as (Ho & Hts & Hc & Hpipe).
    assert (Hheld : forall t, tasks p !! tid = Some t -> holds (calls p) t).
    { intros t Ht. rewrite Forall_lookup in Hts. eapply Hts, Ht. }
    goes_cases H.
    + apply (orderly_quiet p _ tid (TExecStart (el_Container el0)) []);
        try assumption; try reflexivity; try exact I; try constructor.
      simpl. rewrite app_nil_r. reflexivity.
    + rewrite Exec_return_unfold.
      apply exec_start_Returned in Hs0 as [(e' & -> & -> & ->) | (-> & _ & -> & ->)].
      * apply (orderly_next p _ [ContainerStart c0 name0 (Some e')] tid TDone
                 [advance_task (call (ContainerStart c0 name0 (Some e')) p)] []);
          try assumption; try reflexivity; try exact I; try constructor.
        -- apply in_order_snoc; [exact Ho | exact I].
        -- simpl. apply insert_app_l. eapply lookup_lt_Some, Ht0.
        -- apply holds_advance.
        -- constructor.
        -- simpl. rewrite app_nil_r. reflexivity.
        -- simpl. rewrite app_nil_r. reflexivity.
      * apply (orderly_next p _ [ContainerStart c0 name0 None] tid TDone
                 [TLogs c0 name0; advance_task (started_by c0 name0 p)] []);
          try assumption; try reflexivity; try exact I.
        -- apply in_order_snoc; [exact Ho | exact I].
        -- simpl. rewrite <- app_assoc. apply insert_app_l.
           eapply lookup_lt_Some, Ht0.
        -- constructor; [| constructor; [apply holds_advance | constructor]].
           simpl. apply elem_of_app. right. apply list_elem_of_singleton. reflexivity.
        -- simpl. rewrite app_nil_r. reflexivity.
        -- constructor.
    + apply exec_start_Blocked in Hs0 as (-> & _ & -> & ->).
      apply (orderly_next p _ [ContainerStart c0 name0 None; ContainerWait name0]
               tid (TExecWait c0 name0) [TLogs c0 name0] []);
        try assumption; try reflexivity.
      * simpl. rewrite <- app_assoc. reflexivity.
      * change [ContainerStart c0 name0 None; ContainerWait name0]
          with ([ContainerStart c0 name0 None] ++ [ContainerWait name0]).
        rewrite app_assoc. apply in_order_snoc.
        -- apply in_order_snoc; [exact Ho | exact I].
        -- simpl. rewrite started_snoc. apply elem_of_app. right.
           apply list_elem_of_singleton. reflexivity.
      * simpl. apply insert_app_l. eapply lookup_lt_Some, Ht0.
      * simpl. apply elem_of_app. right. apply elem_of_cons. left. reflexivity.
      * constructor; [| constructor].
        simpl. apply elem_of_app. right. apply elem_of_cons. left. reflexivity.
      * simpl. rewrite app_nil_r. reflexivity.
      * constructor.
    + rewrite Exec_return_unfold.
      apply (orderly_quiet p _ tid TDone [advance_task p]);
        try assumption; try reflexivity; try exact I.
      * simpl. apply insert_app_l. eapply lookup_lt_Some, Ht0.
      * constructor; [apply holds_advance | constructor].
    + specialize (Hheld _ Ht0). simpl in Hheld.
      apply (orderly_next p _ [ContainerLogs name0 (Some e0)] tid TDone [] []);
        try assumption; try reflexivity; try exact I; try constructor.
      * apply in_order_snoc; [exact Ho |]. simpl.
        eapply started_elem, Hheld.
      * simpl. rewrite app_nil_r. reflexivity.
      * simpl. rewrite app_nil_r. reflexivity.
      * simpl. rewrite app_nil_r. reflexivity.
    + specialize (Hheld _ Ht0). simpl in Hheld.
      apply (orderly_next p _ [ContainerLogs name0 None] tid (TScan c0 name0 now0 0) [] []);
        try assumption; try reflexivity; try constructor.
      * apply in_order_snoc; [exact Ho |]. simpl.
        eapply started_elem, Hheld.
      * simpl. rewrite app_nil_r. reflexivity.
      * apply elem_of_app. left. exact Hheld.
      * apply elem_of_app. right. apply list_elem_of_singleton. reflexivity.
      * simpl. rewrite app_nil_r. reflexivity.
      * simpl. rewrite app_nil_r. reflexivity.
    + specialize (Hheld _ Ht0). simpl in Hheld.
      apply (orderly_next p _ [rc_Close name0] tid TDone [] []);
        try assumption; try reflexivity; try exact I; try constructor.
      * apply in_order_snoc; [exact Ho |]. simpl. apply Hheld.
      * simpl. rewrite app_nil_r. reflexivity.
      * simpl. rewrite app_nil_r. reflexivity.
      * simpl. rewrite app_nil_r. reflexivity.
    + specialize (Hheld _ Ht0). simpl in Hheld.
      apply (orderly_quiet p _ tid
               (TSendLine c0 name0 now0 num0
                  (mkLine (Name c0) (Seconds_int64 (Since now0 t0)) num0 s0)) []);
        try assumption; try reflexivity; try constructor.
      * simpl. rewrite app_nil_r. reflexivity.
      * apply Hheld.
      * split; [apply Hheld | reflexivity].
    + specialize (Hheld _ Ht0). simpl in Hheld. destruct Hheld as (Hs & Hl & Hn).
      apply (orderly_next p _ [] tid (TScan c0 name0 now0 (int_incr num0)) [] [l0]);
        rewrite ?app_nil_r; try assumption; try reflexivity.
      * simpl. tauto.
      * constructor.
      * constructor; [| constructor]. rewrite Hn. eapply started_elem, Hs.
    + apply (orderly_quiet p _ tid TSendNext []);
        try assumption; try reflexivity; try exact I; try constructor.
      simpl. rewrite app_nil_r. reflexivity.
    + apply (orderly_quiet p _ tid TDone []);
        try assumption; try reflexivity; try exact I; try constructor.
      simpl. rewrite app_nil_r. reflexivity.
    + apply (orderly_quiet p _ tid TDone []);
        try assumption; try reflexivity; try exact I; try constructor.
      simpl. rewrite app_nil_r. reflexivity.
Qed.

Lemma orderly_Load steps : orderly (Load steps).
Proof.
  split; [| split; [| split]]; try constructor.
  intros i c Hi. discriminate Hi.
Qed.

Lemma orderly_acts (l : list Action) (p q : Pipeline) :
  orderly p -> acts l p = Ok q -> orderly q.
Proof.
  intros Hp H. eapply (acts_invariant orderly); [| exact Hp | exact H].
  intros a q1 q2 Hq Ha. eapply orderly_act; eassumption.
Qed.

(** X4: the pipeline asks the engine for the log of a container, waits for
    it or removes it only after a call of [ContainerStart] returned its
    identifier with no error, and closes a log only after [ContainerLogs]
    opened it: each call finds what it needs among the calls before it. *)
Theorem calls_in_order (l : list Action) (p q : Pipeline)
    (Hp : orderly p) (Hrun : acts l p = Ok q) :
  forall i c, calls q !! i = Some c -> needs c (take i (calls q)).
Proof. apply (orderly_acts l p q Hp Hrun). Qed.

Lemma calls_in_order_ABC :
  orderly abc /\
  exists c, last (calls finished_ABC) = Some c /\
    needs c (take (length (calls finished_ABC) - 1) (calls finished_ABC)).
Proof.
  split; [apply orderly_Load |].
  eexists. split; [reflexivity |].
  apply (calls_in_order run_ABC abc finished_ABC (orderly_Load _) finished_ABC_reached).
  reflexivity.
Defined.

Lemma logged_A_reached :
  acts (A_blocked ++ Go 1 (RLogs None 1000)
          :: scans 1 [("hello", 900001000%Z); ("world", 2500001000%Z)]) abc
  = Ok logged_A.
Proof. vm_compute. reflexivity. Qed.

(** X5: every record delivered on [pipe] carries the name of a step whose
    container was started with no error. *)
Theorem records_name_started_steps (l : list Action) (p q : Pipeline)
    (Hp : orderly p) (Hrun : acts l p = Ok q) :
  Forall (fun r => Proc r ∈ started_names (calls q)) (sent (pipe q)).
Proof. apply (orderly_acts l p q Hp Hrun). Qed.

Lemma records_name_started_steps_A :
  length (sent (pipe logged_A)) = 2 /\
  Forall (fun r => Proc r ∈ ["A"]) (sent (pipe logged_A)).
Proof.
  split; [reflexivity |].
  exact (records_name_started_steps _ abc logged_A (orderly_Load _) logged_A_reached).
Defined.

(** ** After [Teardown] *)

Lemma lookup_spawned_torn (t : Task) (rm : nat -> option error) (p : Pipeline) :
  tasks (spawn t (torn_down rm p)) !! length (tasks p) = Some t.
Proof. apply (lookup_spawned t (torn_down rm p)). Qed.

(** X6: [Teardown] cannot be repeated, and after it every signal panics: a
    goroutine that was blocked in a send on [next] or [done], the goroutine
    of a later [Stop], the advance of a later [Skip].  A forwarding goroutine
    blocked in its send still delivers its record on [pipe]. *)
Theorem after_Teardown (rm : nat -> option error) (p p' : Pipeline)
    (Hdown : Teardown rm p = Ok p') :
  (forall rm', Teardown rm' p' = Panic) /\
  (forall tid, tasks p !! tid = Some TSendNext -> run tid RNone p' = Panic) /\
  (forall tid e, tasks p !! tid = Some (TSendDone e) -> run tid RNone p' = Panic) /\
  run (length (tasks p)) RNone (Stop p') = Panic /\
  acts (advance (length (tasks p)) (bool_decide (head p = tail p))) (Skip p') = Panic /\
  (forall tid c name now num r,
     tasks p !! tid = Some (TSendLine c name now num r) ->
     closed (pipe p) = false ->
     exists q, run tid RNone p' = Ok q /\ sent (pipe q) = sent (pipe p) ++ [r]).
Proof.
  apply Teardown_Ok in Hdown as (Hn & Hd & ->).
  split; [| split; [| split; [| split; [| split]]]].
  - intros rm'. rewrite Teardown_unfold. reflexivity.
  - intros tid Ht. unfold run. simpl. rewrite Ht. reflexivity.
  - intros tid e Ht. unfold run. simpl. rewrite Ht. reflexivity.
  - unfold run, Stop. rewrite lookup_spawned_torn. reflexivity.
  - unfold Skip. rewrite step_spawn.
    change (advance_task (torn_down rm p)) with (advance_task p).
    unfold advance_task.
    destruct (decide (head p = tail p)) as [Heq | Hne].
    + rewrite bool_decide_eq_true_2 by exact Heq.
      cbn [advance acts act]. unfold run.
      rewrite lookup_spawned_torn. reflexivity.
    + rewrite bool_decide_eq_false_2 by exact Hne.
      cbn [advance acts act]. unfold run at 1.
      rewrite lookup_spawned_torn.
      change (deref (spawn TStepNext (torn_down rm p))) with (deref p).
      destruct (deref p) as [el |]; [| reflexivity].
      unfold run. simpl. rewrite insert_spawned.
      rewrite list_lookup_middle by reflexivity. reflexivity.
  - intros tid c name now num r Ht Hopen. unfold run. simpl. rewrite Ht, Hopen.
    eexists. split; reflexivity.
Qed.

(** After the three steps [Teardown] runs; the controller then calls
    [Stop]. *)
Lemma after_Teardown_ABC :
  acts [CallTeardown rm_fails_first; CallTeardown rm_fails_first] finished_ABC = Panic /\
  acts [CallTeardown rm_fails_first; CallStop; Go 9 RNone] finished_ABC = Panic.
Proof.
  assert (E : Teardown rm_fails_first finished_ABC
              = Ok (torn_down rm_fails_first finished_ABC)) by reflexivity.
  destruct (after_Teardown _ _ _ E) as (Htwice & _ & _ & Hstop & _).
  split.
  - cbn [acts act]. rewrite E. exact (Htwice rm_fails_first).
  - cbn [acts act]. rewrite E. exact Hstop.
Defined.

(** ** The method [close] *)

(** X7: [close] delivers its argument on [done] and stores nothing: after
    it [Err] returns what it returned before, whatever was delivered.  [Stop]
    is [close] of [ErrTerm], and [step] on the tail is [close] of nil. *)
Theorem close_delivers_and_stores_nothing (e : option error) (p : Pipeline)
    (Hopen : closed (done p) = false) :
  (exists q, run (length (tasks p)) RNone (Pipeline_close e p) = Ok q /\
     done q = send e (done p) /\ Err q = Err p /\
     head q = head p /\ next q = next p /\ pipe q = pipe p /\
     calls q = calls p /\ containers q = containers p) /\
  Stop p = Pipeline_close (Some ErrTerm) p /\
  (head p = tail p -> step p = Pipeline_close None p).
Proof.
  split; [| split].
  - eexists. split.
    + apply run_send_done; [apply lookup_spawned | exact Hopen].
    + repeat split.
  - reflexivity.
  - intros Heq. unfold step. rewrite decide_True by exact Heq. reflexivity.
Qed.

(** The failure of [A] is stored; [close] of a failure of [C] delivers that
    one and [Err] still returns the failure of [A]. *)
Lemma close_delivers_and_stores_nothing_C :
  exists q, run 6 RNone (Pipeline_close (Some (OomError "C")) C_blocked_after_failure)
            = Ok q /\
    sent (done q) = [Some (OomError "C")] /\ Err q = Some (ExitError "A" 1).
Proof.
  destruct (close_delivers_and_stores_nothing (Some (OomError "C"))
              C_blocked_after_failure eq_refl)
    as ((q & Hrun & Hd & He & _) & _).
  exists q. split; [exact Hrun |]. rewrite Hd, He. split; reflexivity.
Defined.

(** ** Driving the pipeline *)

Lemma acts_app (l1 l2 : list Action) (p q : Pipeline) :
  acts l1 p = Ok q -> acts (l1 ++ l2) p = acts l2 q.
Proof.
  revert p. induction l1 as [| a l1 IH]; intros p H; simpl in *.
  - injection H as <-. reflexivity.
  - destruct (act a p); try discriminate. apply IH. exact H.
Qed.

Lemma run_exec_begin (k : nat) (el : element) (p : Pipeline) :
  tasks p !! k = Some TExec -> deref p = Some el ->
  run k RNone p = Ok (set_task k (TExecStart (el_Container el)) p).
Proof. intros Ht Hel. apply goes_run. apply go_exec_begin; assumption. Qed.

Lemma run_exec_start (k : nat) (c : yaml_Container) (name : string)
    (e : option error) (p : Pipeline) :
  tasks p !! k = Some (TExecStart c) ->
  run k (RStart name e) p =
    match exec_start c name e p with
    | Returned q r => Ok (set_task k TDone (Exec_return r q))
    | Blocked q name' => Ok (set_task k (TExecWait c name') q)
    end.
Proof. intros Ht. unfold run. rewrite Ht. reflexivity. Qed.

Lemma run_exec_wait (k : nat) (c : yaml_Container) (name : string)
    (st : State) (e : option error) (p : Pipeline) :
  tasks p !! k = Some (TExecWait c name) ->
  exists r, exec_wait c (Some st) e = Some r /\
    run k (RWait (Some st) e) p = Ok (set_task k TDone (Exec_return r p)).
Proof.
  intros Ht. unfold run. rewrite Ht.
  destruct (exec_wait c (Some st) e) as [r |] eqn:Hw.
  - exists r. split; reflexivity.
  - unfold exec_wait in Hw. destruct e; [discriminate |].
    destruct (OOMKilled st); [discriminate |].
    destruct (decide _); discriminate.
Qed.

Lemma Pipeline_ext (p q : Pipeline) :
  nodes p = nodes q -> head p = head q -> tail p = tail q ->
  pipe p = pipe q -> next p = next q -> done p = done q -> err p = err q ->
  containers p = containers q -> tasks p = tasks q -> calls p = calls q ->
  p = q.
Proof. destruct p, q. simpl. intros. subst. reflexivity. Qed.

Lemma insert_at_pool (ts : list Task) (t t' : Task) (more : list Task) :
  <[length ts := t']> (ts ++ t :: more) = ts ++ t' :: more.
Proof.
  rewrite insert_app_r_alt by lia. rewrite Nat.sub_diag. reflexivity.
Qed.

Lemma lookup_at_pool (ts : list Task) (t : Task) (more : list Task) :
  (ts ++ t :: more) !! length ts = Some t.
Proof. apply list_lookup_middle. reflexivity. Qed.

(** The pool as the pool of [p] and the goroutines started since. *)
Ltac pool := repeat (rewrite <- ?app_assoc; simpl; rewrite ?insert_at_pool).

Ltac same_state :=
  f_equal; apply Pipeline_ext; simpl; try reflexivity; pool; reflexivity.

Lemma cycle_call_runs (k : Cycle) (c : yaml_Container) (p : Pipeline)
    (el : element) :
  deref p = Some el -> el_Container el = c ->
  acts (cycle_call k c (length (tasks p))) p = Ok (returned_from k c p).
Proof.
  intros Hel <-. destruct k as [| name e | name st e]; cbn [cycle_call acts act app].
  - unfold Skip. rewrite step_spawn. reflexivity.
  - rewrite (run_exec_begin _ el) by (try apply lookup_spawned; exact Hel).
    rewrite (run_exec_start _ (el_Container el))
      by (pool; apply lookup_at_pool).
    cbn [exec_start]. rewrite Exec_return_unfold. unfold returned_from. same_state.
  - rewrite (run_exec_begin _ el) by (try apply lookup_spawned; exact Hel).
    rewrite (run_exec_start _ (el_Container el))
      by (pool; apply lookup_at_pool).
    unfold exec_start, returned_from, cycle_result.
    destruct (Detached (el_Container el)) eqn:Hdet.
    + cbn [acts app]. rewrite Exec_return_unfold. same_state.
    + cbn [acts act app].
      match goal with
      | |- context [run ?k (RWait (Some ?st) ?e) ?q] =>
          destruct (run_exec_wait k (el_Container el) name st e q) as (r & Hr & Hrun)
      end.
      { pool. apply lookup_at_pool. }
      rewrite Hrun, Hr. rewrite Exec_return_unfold. same_state.
Qed.

Lemma lookup_in_pool (ts pre : list Task) (t : Task) (more : list Task) (n : nat) :
  n = length ts + length pre -> (ts ++ pre ++ t :: more) !! n = Some t.
Proof.
  intros ->. rewrite app_assoc. apply list_lookup_middle.
  rewrite length_app. reflexivity.
Qed.

Lemma returned_from_fields (k : Cycle) (c : yaml_Container) (p : Pipeline) :
  head (returned_from k c p) = head p /\ tail (returned_from k c p) = tail p /\
  nodes (returned_from k c p) = nodes p /\
  next (returned_from k c p) = next p /\ done (returned_from k c p) = done p /\
  pipe (returned_from k c p) = pipe p /\
  err (returned_from k c p) = kept (err p) (cycle_result k c) /\
  containers (returned_from k c p) = containers p ++ cycle_started k /\
  length (tasks (returned_from k c p)) = length (tasks p) + spawned k /\
  tasks (returned_from k c p) !! (length (tasks p) + spawned k - 1)
    = Some (advance_task p).
Proof.
  destruct k as [| name e | name st e]; simpl;
    rewrite ?app_nil_r, ?length_app; simpl; repeat split; try lia.
  - apply (lookup_in_pool (tasks p) [] _ []). simpl. lia.
  - apply (lookup_in_pool (tasks p) [TDone] _ []). simpl. lia.
  - apply (lookup_in_pool (tasks p) [TDone; TLogs c name] _ []). simpl. lia.
Qed.

Lemma advance_moves (n : nat) (el : element) (q : Pipeline) :
  tasks q !! n = Some TStepNext -> deref q = Some el -> closed (next q) = false ->
  acts (advance n false) q =
    Ok (set_tasks (<[n := TDone]> (tasks q))
          (set_next (send None (next q)) (set_head (el_next el) q))).
Proof.
  intros Ht Hel Hopen. cbn [advance acts act].
  assert (Hlt : n < length (tasks q)) by (eapply lookup_lt_Some; exact Ht).
  rewrite (run_step_next n el) by assumption.
  rewrite run_send_next
    by (try exact Hopen; simpl; apply list_lookup_insert_eq; exact Hlt).
  f_equal. apply Pipeline_ext; simpl; try reflexivity.
  apply list_insert_insert_eq.
Qed.

Lemma advance_ends (n : nat) (q : Pipeline) :
  tasks q !! n = Some (TSendDone None) -> closed (done q) = false ->
  acts (advance n true) q = Ok (set_task n TDone (set_done (send None (done q)) q)).
Proof.
  intros Ht Hopen. cbn [advance acts act].
  rewrite (run_send_done n None) by assumption. reflexivity.
Qed.

(** A cycle on a step that is not the tail. *)
Lemma cycle_moves (k : Cycle) (c : yaml_Container) (p : Pipeline) (el : element) :
  deref p = Some el -> el_Container el = c -> head p <> tail p ->
  closed (next p) = false ->
  exists q, acts (cycle_acts k c (length (tasks p)) false) p = Ok q /\
    head q = el_next el /\ tail q = tail p /\ nodes q = nodes p /\
    next q = send None (next p) /\ done q = done p /\ pipe q = pipe p /\
    err q = kept (err p) (cycle_result k c) /\
    containers q = containers p ++ cycle_started k /\
    length (tasks q) = length (tasks p) + spawned k.
Proof.
  intros Hel Hc Hne Hopen.
  destruct (returned_from_fields k c p)
    as (Hh & Ht & Hn & Hnx & Hd & Hp & He & Hco & Hlen & Hadv).
  unfold advance_task in Hadv. rewrite decide_False in Hadv by exact Hne.
  assert (Hel' : deref (returned_from k c p) = Some el).
  { unfold deref. rewrite Hh, Hn. exact Hel. }
  eexists. split.
  - unfold cycle_acts. rewrite (acts_app _ _ _ _ (cycle_call_runs k c p el Hel Hc)).
    apply advance_moves; [exact Hadv | exact Hel' | rewrite Hnx; exact Hopen].
  - simpl. rewrite length_insert, Hnx. repeat split; assumption.
Qed.

(** A cycle on the tail. *)
Lemma cycle_ends (k : Cycle) (c : yaml_Container) (p : Pipeline) (el : element) :
  deref p = Some el -> el_Container el = c -> head p = tail p ->
  closed (done p) = false ->
  exists q, acts (cycle_acts k c (length (tasks p)) true) p = Ok q /\
    head q = head p /\ tail q = tail p /\ nodes q = nodes p /\
    next q = next p /\ done q = send None (done p) /\ pipe q = pipe p /\
    err q = kept (err p) (cycle_result k c) /\
    containers q = containers p ++ cycle_started k /\
    length (tasks q) = length (tasks p) + spawned k.
Proof.
  intros Hel Hc Heq Hopen.
  destruct (returned_from_fields k c p)
    as (Hh & Ht & Hn & Hnx & Hd & Hp & He & Hco & Hlen & Hadv).
  unfold advance_task in Hadv. rewrite decide_True in Hadv by exact Heq.
  eexists. split.
  - unfold cycle_acts. rewrite (acts_app _ _ _ _ (cycle_call_runs k c p el Hel Hc)).
    apply advance_ends; [exact Hadv | rewrite Hd; exact Hopen].
  - simpl. rewrite length_insert, Hd. repeat split; assumption.
Qed.

Lemma path_head (ns : list element) (h t : option nat) (c : yaml_Container)
    (cs : list yaml_Container) :
  path ns h (c :: cs) t ->
  exists a el, h = Some a /\ ns !! a = Some el /\ el_Container el = c /\
    (cs = [] -> h = t) /\
    (cs <> [] -> h <> t /\ path ns (el_next el) cs t).
Proof.
  simpl. intros (a & el & Hh & Ha & Hc & Hrest). exists a, el.
  repeat split; try assumption; destruct cs; intros; try congruence; tauto.
Qed.

(** The cycles before a step bring the head to it. *)
Lemma drive_runs (ks : list Cycle) : forall cs p c' rest,
  length ks = length cs ->
  path (nodes p) (head p) (cs ++ c' :: rest) (tail p) ->
  closed (next p) = false ->
  exists q, acts (drive (length (tasks p)) ks cs) p = Ok q /\
    path (nodes q) (head q) (c' :: rest) (tail q) /\
    sent (next q) = sent (next p) ++ replicate (length cs) None /\
    closed (next q) = false /\ done q = done p /\ pipe q = pipe p /\
    err q = err_after (err p) ks cs /\
    containers q = containers p ++ started_in ks /\
    length (tasks q) = pool_after (length (tasks p)) ks.
Proof.
  induction ks as [| k ks IH]; intros cs p c' rest Hlen Hpath Hopen.
  - destruct cs; [| discriminate Hlen]. exists p. simpl. rewrite !app_nil_r.
    repeat split; assumption.
  - destruct cs as [| c cs]; [discriminate Hlen |]. injection Hlen as Hlen.
    apply path_head in Hpath as (a & el & Hh & Ha & Hc & _ & Hrest).
    destruct Hrest as [Hne Hpath]; [destruct cs; discriminate |].
    assert (Hel : deref p = Some el) by (unfold deref; rewrite Hh; exact Ha).
    destruct (cycle_moves k c p el Hel Hc Hne Hopen)
      as (q1 & Hrun1 & Hh1 & Ht1 & Hn1 & Hnx1 & Hd1 & Hp1 & He1 & Hc1 & Hl1).
    destruct (IH cs q1 c' rest Hlen) as (q & Hrun & Hpq & Hnx & Hcl & Hd & Hp & He & Hco & Hl).
    { rewrite Hn1, Hh1, Ht1. exact Hpath. }
    { rewrite Hnx1. exact Hopen. }
    exists q. split.
    + simpl drive. rewrite (acts_app _ _ _ _ Hrun1). rewrite <- Hl1. exact Hrun.
    + split; [exact Hpq |]. rewrite Hnx, Hnx1, Hd, Hd1, Hp, Hp1, He, He1, Hco, Hc1, Hl, Hl1.
      simpl. rewrite <- !app_assoc. repeat split. exact Hcl.
Qed.

(** The cycles on all the steps end on [done]. *)
Lemma drive_all_runs (ks : list Cycle) : forall cs p,
  length ks = length cs ->
  path (nodes p) (head p) cs (tail p) ->
  closed (next p) = false -> closed (done p) = false ->
  exists q, acts (drive_all (length (tasks p)) ks cs) p = Ok q /\
    head q = tail p /\
    sent (next q) = sent (next p) ++ replicate (length cs - 1) None /\
    sent (done q) = sent (done p) ++ [None] /\ pipe q = pipe p /\
    err q = err_after (err p) ks cs /\
    containers q = containers p ++ started_in ks.
Proof.
  induction ks as [| k ks IH]; intros cs p Hlen Hpath Hnext Hdone.
  - destruct cs; [destruct Hpath | discriminate Hlen].
  - destruct cs as [| c cs]; [discriminate Hlen |]. injection Hlen as Hlen.
    apply path_head in Hpath as (a & el & Hh & Ha & Hc & Hlast & Hrest).
    assert (Hel : deref p = Some el) by (unfold deref; rewrite Hh; exact Ha).
    destruct cs as [| c1 cs].
    + destruct ks; [| discriminate Hlen].
      destruct (cycle_ends k c p el Hel Hc (Hlast eq_refl) Hdone)
        as (q & Hrun & Hh1 & Ht1 & Hn1 & Hnx1 & Hd1 & Hp1 & He1 & Hc1 & Hl1).
      exists q. split; [exact Hrun |].
      rewrite Hh1, Hnx1, Hd1, Hp1, He1, Hc1. simpl. rewrite !app_nil_r.
      repeat split. apply Hlast. reflexivity.
    + destruct Hrest as [Hne Hpath]; [discriminate |].
      destruct (cycle_moves k c p el Hel Hc Hne Hnext)
        as (q1 & Hrun1 & Hh1 & Ht1 & Hn1 & Hnx1 & Hd1 & Hp1 & He1 & Hc1 & Hl1).
      destruct (IH (c1 :: cs) q1 Hlen) as (q & Hrun & Hhq & Hnx & Hd & Hp & He & Hco).
      { rewrite Hn1, Hh1, Ht1. exact Hpath. }
      { rewrite Hnx1. exact Hnext. }
      { rewrite Hd1. exact Hdone. }
      exists q. split.
      * change (drive_all (length (tasks p)) (k :: ks) (c :: c1 :: cs))
          with (cycle_acts k c (length (tasks p)) false
                  ++ drive_all (length (tasks p) + spawned k) ks (c1 :: cs)).
        rewrite (acts_app _ _ _ _ Hrun1). rewrite <- Hl1. exact Hrun.
      * rewrite Hhq, Hnx, Hnx1, Hd, Hd1, Hp, Hp1, He, He1, Hco, Hc1, Ht1.
        simpl. rewrite Nat.sub_0_r, <- !app_assoc. repeat split.
Qed.

(** X8: the controller drives a pipeline of the steps [cs] one step at a
    time, each step skipped, failing to start, or started and, if it is not
    detached, waited for.  Before cycle [i], [Head] is step [i], [i] nils
    were delivered on [next] and nothing on [done].  After the cycle of the
    last step one more nil than steps but one was delivered on [next], one
    nil on [done], the head is the tail, [Err] is the last failure of a step,
    if any, and [containers] got the identifiers of the steps started. *)
Theorem drive_reaches_each_step (p : Pipeline) (cs : list yaml_Container)
    (ks : list Cycle)
    (Hpath : path (nodes p) (head p) cs (tail p))
    (Hlen : length ks = length cs)
    (Hnext : closed (next p) = false) (Hdone : closed (done p) = false) :
  (forall i c, cs !! i = Some c ->
     exists q, acts (drive (length (tasks p)) (take i ks) (take i cs)) p = Ok q /\
       Head q = Some c /\
       sent (next q) = sent (next p) ++ replicate i None /\
       sent (done q) = sent (done p) /\
       Err q = err_after (Err p) (take i ks) (take i cs) /\
       containers q = containers p ++ started_in (take i ks)) /\
  (exists q, acts (drive_all (length (tasks p)) ks cs) p = Ok q /\
     head q = tail p /\
     sent (next q) = sent (next p) ++ replicate (length cs - 1) None /\
     sent (done q) = sent (done p) ++ [None] /\
     Err q = err_after (Err p) ks cs /\
     containers q = containers p ++ started_in ks).
Proof.
  split.
  - intros i c Hi.
    assert (Hlt : i < length cs) by (eapply lookup_lt_Some; exact Hi).
    destruct (drive_runs (take i ks) (take i cs) p c (drop (S i) cs))
      as (q & Hrun & Hpq & Hnx & _ & Hd & _ & He & Hco & _).
    { rewrite !length_take. lia. }
    { rewrite take_drop_middle by exact Hi. exact Hpath. }
    { exact Hnext. }
    exists q. split; [exact Hrun |].
    apply path_head in Hpq as (a & el & Hh & Ha & Hc & _).
    split; [unfold Head, deref; rewrite Hh, Ha, <- Hc; reflexivity |].
    rewrite Hnx, Hd, length_take. replace (i `min` length cs) with i by lia.
    repeat split; assumption.
  - destruct (drive_all_runs ks cs p Hlen Hpath Hnext Hdone)
      as (q & Hrun & Hh & Hnx & Hd & _ & He & Hco).
    exists q. repeat split; assumption.
Qed.

(** The list that [Load] links is a path from the head to the tail. *)
Lemma path_Load_from (steps : list yaml_Container) : forall d i,
  d = length steps - i -> i < length steps ->
  path (imap (link (length steps)) steps) (Some i) (drop i steps)
    (Some (length steps - 1)).
Proof.
  induction d as [| d IH]; intros i Hd Hi; [lia |].
  destruct (steps !! i) as [c |] eqn:Hc;
    [| apply lookup_ge_None in Hc; lia].
  rewrite (drop_S _ _ _ Hc). simpl.
  exists i, (link (length steps) i c). split; [reflexivity |].
  split; [rewrite list_lookup_imap, Hc; reflexivity |].
  split; [reflexivity |].
  destruct (decide (S i < length steps)) as [Hlt | Hge].
  - destruct (drop (S i) steps) as [| c1 rest] eqn:Hdrop.
    + apply (f_equal length) in Hdrop. rewrite length_drop in Hdrop. simpl in Hdrop. lia.
    + split; [intros [= ->]; lia |]. rewrite <- Hdrop.
      unfold link. simpl. rewrite decide_True by exact Hlt.
      apply IH; lia.
  - rewrite drop_ge by lia. f_equal. lia.
Qed.

Lemma path_Load (steps : list yaml_Container) :
  steps <> [] ->
  path (nodes (Load steps)) (head (Load steps)) steps (tail (Load steps)).
Proof.
  intros Hne. assert (Hlen : 0 < length steps) by (destruct steps; simpl; [congruence | lia]).
  unfold Load. simpl. rewrite !decide_True by exact Hlen.
  apply (path_Load_from steps (length steps) 0); lia.
Qed.

(** The three steps: before the second cycle the head is [B]; in the end
    [C] has failed and nil was delivered on [done]. *)
Lemma drive_reaches_each_step_ABC :
  (exists q, acts (drive 0 (take 1 cycles_ABC) [stepA]) abc = Ok q /\
     Head q = Some stepB /\ sent (next q) = [None] /\ sent (done q) = []) /\
  (exists q, acts (drive_all 0 cycles_ABC [stepA; stepB; stepC]) abc = Ok q /\
     sent (next q) = [None; None] /\ sent (done q) = [None] /\
     Err q = Some (ExitError "C" 1) /\ containers q = ["idA"; "idB"; "idC"]).
Proof.
  destruct (drive_reaches_each_step abc [stepA; stepB; stepC] cycles_ABC)
    as (Hbefore & q & Hrun & _ & Hnx & Hd & He & Hc);
    try reflexivity.
  { apply (path_Load [stepA; stepB; stepC]). discriminate. }
  split.
  - destruct (Hbefore 1 stepB eq_refl) as (q1 & Hrun1 & Hh1 & Hnx1 & Hd1 & _).
    exists q1. repeat split; assumption.
  - exists q. repeat split; assumption.
Defined.

(** X9: after the cycle of the last step the pipeline is not closed: each
    further cycle, single-flight, delivers one more nil on [done] and leaves
    the head on the tail, and each [Exec] among them starts the container of
    the tail again. *)
Theorem cycles_on_the_tail (ks : list Cycle) (c : yaml_Container) (p : Pipeline)
    (Hpath : path (nodes p) (head p) [c] (tail p))
    (Hdone : closed (done p) = false) :
  exists q, acts (stay (length (tasks p)) ks c) p = Ok q /\
    head q = head p /\ Head q = Some c /\
    sent (done q) = sent (done p) ++ replicate (length ks) None /\
    next q = next p /\
    Err q = err_stay (Err p) ks c /\
    containers q = containers p ++ started_in ks.
Proof.
  revert p Hpath Hdone. induction ks as [| k ks IH]; intros p Hpath Hdone.
  - apply path_head in Hpath as (a & el & Hh & Ha & Hc & _).
    exists p. simpl. rewrite !app_nil_r. repeat split.
    unfold Head, deref. rewrite Hh, Ha, <- Hc. reflexivity.
  - pose proof Hpath as Hpath'.
    apply path_head in Hpath as (a & el & Hh & Ha & Hc & Hlast & _).
    assert (Hel : deref p = Some el) by (unfold deref; rewrite Hh; exact Ha).
    destruct (cycle_ends k c p el Hel Hc (Hlast eq_refl) Hdone)
      as (q1 & Hrun1 & Hh1 & Ht1 & Hn1 & Hnx1 & Hd1 & Hp1 & He1 & Hc1 & Hl1).
    destruct (IH q1) as (q & Hrun & Hhq & HHq & Hd & Hnx & He & Hco).
    { rewrite Hn1, Hh1, Ht1. exact Hpath'. }
    { rewrite Hd1. exact Hdone. }
    exists q. split.
    + simpl stay. rewrite (acts_app _ _ _ _ Hrun1). rewrite <- Hl1. exact Hrun.
    + rewrite Hhq, Hh1, Hd, Hd1, Hnx, Hnx1, He, Hco, Hc1. unfold Err in *. rewrite He1.
      simpl. rewrite <- !app_assoc. repeat split. exact HHq.
Qed.

(** A pipeline of the one step [C]: it runs and exits 0, is run again and
    is OOM-killed, and is skipped. *)
Lemma cycles_on_the_tail_C :
  exists q, acts (stay 0 [Runs "id1" (mkState 0 false) None;
                          Runs "id2" (mkState 137 true) None; Skipped] stepC) only_C
            = Ok q /\
    sent (done q) = [None; None; None] /\ containers q = ["id1"; "id2"] /\
    Err q = Some (OomError "C").
Proof.
  destruct (cycles_on_the_tail
              [Runs "id1" (mkState 0 false) None;
               Runs "id2" (mkState 137 true) None; Skipped] stepC only_C)
    as (q & Hrun & _ & _ & Hd & _ & He & Hc); try reflexivity.
  { apply (path_Load [stepC]). discriminate. }
  exists q. repeat split; assumption.
Defined.

(** X10: single-flight is needed.  When one step is left before the tail
    and [Skip] is called twice before the first advance ran, both advances
    move the head: it ends nil, past the tail, [Head] panics, the goroutine of
    a further [Exec] panics, and the two nils go to [next], none to [done]. *)
Theorem double_Skip_loses_head (p : Pipeline) (c c' : yaml_Container)
    (Hpath : path (nodes p) (head p) [c; c'] (tail p))
    (Hend : forall a el, tail p = Some a -> nodes p !! a = Some el -> el_next el = None)
    (Hnext : closed (next p) = false) :
  (exists q, acts [CallSkip; CallSkip;
                   Go (length (tasks p)) RNone; Go (S (length (tasks p))) RNone;
                   Go (length (tasks p)) RNone; Go (S (length (tasks p))) RNone] p
             = Ok q /\
     head q = None /\ Head q = None /\
     sent (next q) = sent (next p) ++ [None; None] /\ done q = done p) /\
  acts [CallSkip; CallSkip;
        Go (length (tasks p)) RNone; Go (S (length (tasks p))) RNone;
        CallExec; Go (S (S (length (tasks p)))) RNone] p = Panic.
Proof.
  apply path_head in Hpath as (a & el & Hh & Ha & Hc & _ & Hrest).
  destruct Hrest as [Hne Hpath]; [discriminate |].
  apply path_head in Hpath as (a' & el' & Hh' & Ha' & Hc' & Hlast & _).
  specialize (Hlast eq_refl).
  assert (Hnil : el_next el' = None).
  { apply (Hend a'); [rewrite <- Hlast; exact Hh' | exact Ha']. }
  assert (Hel : deref p = Some el) by (unfold deref; rewrite Hh; exact Ha).
  assert (Hstep : step p = spawn TStepNext p).
  { unfold step. rewrite decide_False by exact Hne. reflexivity. }
  assert (Hmoved :
    acts [CallSkip; CallSkip;
          Go (length (tasks p)) RNone; Go (S (length (tasks p))) RNone] p
    = Ok (set_tasks (tasks p ++ [TSendNext; TSendNext]) (set_head None p))).
  { cbn [acts act]. unfold Skip. rewrite Hstep.
    assert (Hstep' : step (spawn TStepNext p) = spawn TStepNext (spawn TStepNext p)).
    { unfold step. simpl. rewrite decide_False by exact Hne. reflexivity. }
    rewrite Hstep'.
    rewrite (run_step_next _ el)
      by (try exact Hel; simpl; rewrite <- app_assoc; apply lookup_at_pool).
    rewrite (run_step_next _ el').
    - rewrite Hnil. f_equal. apply Pipeline_ext; simpl; try reflexivity. pool.
      change [TSendNext; TStepNext] with ([TSendNext] ++ [TStepNext]).
      rewrite (app_assoc (tasks p) [TSendNext]).
      replace (S (length (tasks p))) with (length (tasks p ++ [TSendNext]))
        by (rewrite length_app; simpl; lia).
      rewrite insert_at_pool, <- app_assoc. reflexivity.
    - simpl. pool. apply (lookup_in_pool (tasks p) [TSendNext] _ []). simpl. lia.
    - unfold deref. simpl. rewrite Hh'. exact Ha'. }
  split.
  - eexists. split.
    + change [CallSkip; CallSkip; Go (length (tasks p)) RNone;
              Go (S (length (tasks p))) RNone; Go (length (tasks p)) RNone;
              Go (S (length (tasks p))) RNone]
        with ([CallSkip; CallSkip; Go (length (tasks p)) RNone;
               Go (S (length (tasks p))) RNone]
              ++ [Go (length (tasks p)) RNone; Go (S (length (tasks p))) RNone]).
      rewrite (acts_app _ _ _ _ Hmoved). cbn [acts act].
      rewrite run_send_next by (try exact Hnext; simpl; apply lookup_at_pool).
      rewrite run_send_next; [reflexivity | | exact Hnext].
      simpl. pool. apply (lookup_in_pool (tasks p) [TDone] _ []). simpl. lia.
    + simpl. rewrite <- app_assoc. repeat split.
  - change [CallSkip; CallSkip; Go (length (tasks p)) RNone;
            Go (S (length (tasks p))) RNone; CallExec;
            Go (S (S (length (tasks p)))) RNone]
      with ([CallSkip; CallSkip; Go (length (tasks p)) RNone;
             Go (S (length (tasks p))) RNone]
            ++ [CallExec; Go (S (S (length (tasks p)))) RNone]).
    rewrite (acts_app _ _ _ _ Hmoved). cbn [acts act]. unfold run.
    assert (Hk : tasks (Exec (set_tasks (tasks p ++ [TSendNext; TSendNext])
                                (set_head None p))) !! S (S (length (tasks p)))
                 = Some TExec).
    { simpl. rewrite <- app_assoc.
      apply (lookup_in_pool (tasks p) [TSendNext; TSendNext] _ []). simpl. lia. }
    rewrite Hk. reflexivity.
Qed.

Lemma double_Skip_loses_head_B :
  Head at_B = Some stepB /\
  acts [CallSkip; CallSkip; Go 3 RNone; Go 4 RNone; CallExec; Go 5 RNone] at_B = Panic.
Proof.
  split; [reflexivity |].
  apply (double_Skip_loses_head at_B stepB stepC).
  - simpl. exists 1, (mkElement stepB (Some 2)). repeat split; [discriminate |].
    exists 2, (mkElement stepC None). repeat split.
  - intros a el [= <-] [= <-]. reflexivity.
  - reflexivity.
Defined.

(** ** The controller *)

Lemma groups_app (tr tr' : list Event) : groups (tr ++ tr') = groups tr ++ groups tr'.
Proof. apply omap_app. Qed.

(** What one [if] adds. *)
Lemma phase_spec (R : Runner) (flag : bool) (mask : list NodeType)
    (a : Frame * RState R) :
  exists evs,
    trace (fst (phase R flag mask a)) = trace (fst a) ++ evs /\
    deferred (fst (phase R flag mask a)) = deferred (fst a) /\
    groups evs = sel flag mask /\ Forall quiet evs.
Proof.
  destruct a as [pr s]. unfold phase, sel. destruct flag.
  - destruct (RunNode R mask s) as [s' [e |]].
    + exists [EvRunNode mask; EvDebugln e]. simpl. rewrite <- app_assoc.
      repeat split. repeat constructor.
    + exists [EvRunNode mask]. simpl. repeat split. repeat constructor.
  - exists []. simpl. rewrite app_nil_r. repeat split. constructor.
Qed.

Lemma phase_skipped (R : Runner) (mask : list NodeType) (a : Frame * RState R) :
  phase R false mask a = a.
Proof. destruct a as [pr s]. reflexivity. Qed.

(** The goroutine of [main] runs the groups, calls [controller.Destroy]
    and ends the process. *)
Lemma main_thread_spec (R : Runner) (f : Flags) (s : RState R) :
  exists (evs : list Event) (b3 b4 : bool),
    main_thread R f s = evs ++ [EvDestroy; EvExit (main_status R f s)] /\
    Forall quiet evs /\
    groups evs =
      sel (cache f) [NodeCache] ++ sel (clone f) [NodeClone]
        ++ sel b3 [NodeCompose; NodeBuild] ++ sel b4 [NodePublish; NodeDeploy]
        ++ sel (cache f) [NodeCache] ++ sel (notify f) [NodeNotify] /\
    b3 = build f && negb (Failed R (after_clone R f s)) /\
    (Failed R (after_clone R f s) = true -> b4 = false) /\
    (deploy f = false -> b4 = false) /\
    ((forall mask s', Failed R (fst (RunNode R mask s')) = false) ->
     Failed R s = false ->
     b3 = build f /\ b4 = deploy f /\ main_status R f s = 0%Z).
Proof.
  unfold main_thread, main_status, final_state, after_clone, main_body.
  set (a0 := (defer EvDestroy (mkFrame [] []), s)).
  set (a1 := phase R (cache f) [NodeCache] a0).
  set (a2 := phase R (clone f) [NodeClone] a1).
  set (b3 := build f && negb (Failed R (snd a2))).
  set (a3 := phase R b3 [NodeCompose; NodeBuild] a2).
  set (b4 := deploy f && negb (Failed R (snd a3))).
  set (a4 := phase R b4 [NodePublish; NodeDeploy] a3).
  set (a5 := phase R (cache f) [NodeCache] a4).
  set (a6 := phase R (notify f) [NodeNotify] a5).
  destruct (phase_spec R (cache f) [NodeCache] a0) as (e1 & Ht1 & Hd1 & Hg1 & Hq1).
  destruct (phase_spec R (clone f) [NodeClone] a1) as (e2 & Ht2 & Hd2 & Hg2 & Hq2).
  destruct (phase_spec R b3 [NodeCompose; NodeBuild] a2) as (e3 & Ht3 & Hd3 & Hg3 & Hq3).
  destruct (phase_spec R b4 [NodePublish; NodeDeploy] a3) as (e4 & Ht4 & Hd4 & Hg4 & Hq4).
  destruct (phase_spec R (cache f) [NodeCache] a4) as (e5 & Ht5 & Hd5 & Hg5 & Hq5).
  destruct (phase_spec R (notify f) [NodeNotify] a5) as (e6 & Ht6 & Hd6 & Hg6 & Hq6).
  fold a1 in Ht1, Hd1, Ht2, Hd2. fold a2 in Ht2, Hd2, Ht3, Hd3.
  fold a3 in Ht3, Hd3, Ht4, Hd4. fold a4 in Ht4, Hd4, Ht5, Hd5.
  fold a5 in Ht5, Hd5, Ht6, Hd6. fold a6 in Ht6, Hd6.
  assert (Htrace : trace (fst a6) = e1 ++ e2 ++ e3 ++ e4 ++ e5 ++ e6).
  { rewrite Ht6, Ht5, Ht4, Ht3, Ht2, Ht1. simpl. rewrite <- !app_assoc. reflexivity. }
  assert (Hdef : deferred (fst a6) = [EvDestroy]).
  { rewrite Hd6, Hd5, Hd4, Hd3, Hd2, Hd1. reflexivity. }
  exists (e1 ++ e2 ++ e3 ++ e4 ++ e5 ++ e6), b3, b4.
  split; [| split; [| split; [| split; [reflexivity | split; [| split]]]]].
  - destruct a6 as [pr s6]. simpl in Htrace, Hdef. simpl snd.
    destruct (Failed R s6).
    + unfold os_Exit, emit. simpl. rewrite Htrace, <- !app_assoc. reflexivity.
    + unfold main_returns. rewrite Htrace, Hdef, <- !app_assoc. reflexivity.
  - rewrite !Forall_app. tauto.
  - rewrite !groups_app, Hg1, Hg2, Hg3, Hg4, Hg5, Hg6. reflexivity.
  - intros Hf. subst b4 a3 b3. rewrite Hf, andb_false_r, phase_skipped, Hf.
    apply andb_false_r.
  - intros Hdep. subst b4. rewrite Hdep. reflexivity.
  - intros Hnever Hs0.
    assert (Hkeep : forall flag mask a,
              Failed R (snd a) = false -> Failed R (snd (phase R flag mask a)) = false).
    { intros flag mask [pr s0] Hs1. unfold phase. destruct flag; [| exact Hs1].
      specialize (Hnever mask s0). destruct (RunNode R mask s0) as [s' e].
      exact Hnever. }
    assert (H1 : Failed R (snd a1) = false) by (apply Hkeep; exact Hs0).
    assert (H2 : Failed R (snd a2) = false) by (apply Hkeep; exact H1).
    assert (H3 : Failed R (snd a3) = false) by (apply Hkeep; exact H2).
    assert (H4 : Failed R (snd a4) = false) by (apply Hkeep; exact H3).
    assert (H5 : Failed R (snd a5) = false) by (apply Hkeep; exact H4).
    assert (H6 : Failed R (snd a6) = false) by (apply Hkeep; exact H5).
    split; [subst b3; rewrite H2; apply andb_true_r |].
    split; [subst b4; rewrite H3; apply andb_true_r |].
    rewrite H6. reflexivity.
Qed.






(** *** Signals and the timeout *)

(** What holds of the events before an exit holds when the process ends,
    whichever goroutine ends it. *)
Lemma process_exit_inv (Q : Z -> list Event -> Prop)
    (HQ : forall code l l', l ⊆ l' -> Q code l -> Q code l') :
  forall sched ths acc,
    Forall (fun th => forall k code, th !! k = Some (EvExit code) ->
                        Q code (acc ++ take k th)) ths ->
    forall body code, process sched ths = body ++ [EvExit code] ->
      Q code (acc ++ body).
Proof.
  induction sched as [| i sched IH]; intros ths acc Hths body code Hrun; simpl in Hrun.
  - destruct body; discriminate Hrun.
  - destruct (ths !! i) as [[| ev rest] |] eqn:Hi; try (eapply IH; eassumption).
    assert (Hstep : (forall c, ev <> EvExit c) ->
              ev :: process sched (<[i := rest]> ths) = body ++ [EvExit code] ->
              Q code (acc ++ body)).
    { intros Hne Hrun'. destruct body as [| ev' body].
      - injection Hrun' as -> _. destruct (Hne code). reflexivity.
      - injection Hrun' as <- Hrun'.
        replace (acc ++ ev :: body) with ((acc ++ [ev]) ++ body)
          by (rewrite <- app_assoc; reflexivity).
        apply (IH (<[i := rest]> ths)); [| exact Hrun'].
        rewrite Forall_lookup in Hths. apply Forall_lookup. intros j th Hj k c Hk.
        destruct (decide (j = i)) as [-> | Hji].
        + rewrite list_lookup_insert_eq in Hj by (eapply lookup_lt_Some; exact Hi).
          injection Hj as <-.
          rewrite <- app_assoc. apply (Hths i (ev :: rest) Hi (S k) c). exact Hk.
        + rewrite list_lookup_insert_ne in Hj by congruence.
          eapply HQ; [| apply (Hths j th Hj k c Hk)].
          rewrite <- app_assoc. intros x. rewrite !elem_of_app. tauto. }
    destruct ev; try (apply Hstep; [intros c; discriminate | exact Hrun]).
    destruct body as [| ev' body].
    + injection Hrun as <-. rewrite Forall_lookup in Hths.
      apply (Hths i _ Hi 0 code0). reflexivity.
    + injection Hrun as _ Hrun. destruct body; discriminate Hrun.
Qed.

(** An interruption only cuts the goroutine of [main] short. *)
Lemma process_groups : forall sched ths th0,
  ths !! 0 = Some th0 ->
  (forall i th, i <> 0 -> ths !! i = Some th -> groups th = []) ->
  groups (process sched ths) `prefix_of` groups th0.
Proof.
  induction sched as [| i sched IH]; intros ths th0 H0 Hothers; simpl.
  - apply prefix_nil.
  - destruct (ths !! i) as [[| ev rest] |] eqn:Hi; try (eapply IH; eassumption).
    assert (Hstep : groups (ev :: process sched (<[i := rest]> ths))
                    `prefix_of` groups th0).
    { destruct (decide (i = 0)) as [-> | Hne].
      - rewrite H0 in Hi. injection Hi as ->.
        change (ev :: process sched (<[0 := rest]> ths))
          with ([ev] ++ process sched (<[0 := rest]> ths)).
        change (ev :: rest) with ([ev] ++ rest).
        rewrite !groups_app. apply prefix_app.
        apply (IH (<[0 := rest]> ths) rest).
        + apply list_lookup_insert_eq. eapply lookup_lt_Some; exact H0.
        + intros j th Hj Hth. rewrite list_lookup_insert_ne in Hth by congruence.
          eapply Hothers; eassumption.
      - pose proof (Hothers i _ Hne Hi) as Hg.
        change (ev :: rest) with ([ev] ++ rest) in Hg.
        rewrite groups_app in Hg. apply app_eq_nil in Hg as [Hev Hrest].
        change (ev :: process sched (<[i := rest]> ths))
          with ([ev] ++ process sched (<[i := rest]> ths)).
        rewrite groups_app, Hev. simpl.
        apply (IH (<[i := rest]> ths) th0).
        + rewrite list_lookup_insert_ne by congruence. exact H0.
        + intros j th Hj Hth. destruct (decide (j = i)) as [-> | Hji].
          * rewrite list_lookup_insert_eq in Hth by (eapply lookup_lt_Some; exact Hi).
            injection Hth as <-. exact Hrest.
          * rewrite list_lookup_insert_ne in Hth by congruence.
            eapply Hothers; eassumption. }
    destruct ev; try exact Hstep. simpl. apply prefix_nil.
Qed.

(** X13: the goroutine of [main], the goroutine that waits for a signal
    and the goroutine of the timeout, in any interleaving.  When the process
    ends, [controller.Destroy] was called before; the status is that of
    [main], or 130 after the message of the cancel request, or 128 after the
    message of the timeout.  The groups run are the first of those that
    [main] runs alone, and when the two goroutines stay blocked the process
    is the goroutine of [main]. *)
Theorem Destroy_before_exit (R : Runner) (f : Flags) (s : RState R)
    (sched : list nat) :
  (forall body code,
     process sched [main_thread R f s; cancel_thread; timeout_thread]
       = body ++ [EvExit code] ->
     EvDestroy ∈ body /\
     (code = main_status R f s \/
      code = 130%Z /\
        EvPrintln "Cancel request received, killing process" ∈ body \/
      code = 128%Z /\
        EvPrintln "Timeout request received, killing process" ∈ body)) /\
  groups (process sched [main_thread R f s; cancel_thread; timeout_thread])
    `prefix_of` groups (main_thread R f s) /\
  (forall n, length (main_thread R f s) <= n ->
     process (replicate n 0) [main_thread R f s; cancel_thread; timeout_thread]
     = main_thread R f s).
Proof.
  destruct (main_thread_spec R f s) as (evs & _ & _ & Hshape & Hq & _).
  split; [| split].
  - intros body code Hrun.
    apply (process_exit_inv
             (fun code l =>
                EvDestroy ∈ l /\
                (code = main_status R f s \/
                 code = 130%Z /\
                   EvPrintln "Cancel request received, killing process" ∈ l \/
                 code = 128%Z /\
                   EvPrintln "Timeout request received, killing process" ∈ l))
             ltac:(intros c l l' Hsub (Hd & Hc); split; [apply Hsub, Hd |];
                   destruct Hc as [Hc | [(Hc & Hm) | (Hc & Hm)]];
                     [left; exact Hc | right; left; split; [exact Hc | apply Hsub, Hm]
                     | right; right; split; [exact Hc | apply Hsub, Hm]])
             sched [main_thread R f s; cancel_thread; timeout_thread] [] );
      [| exact Hrun].
    constructor; [| constructor; [| constructor; [| constructor]]].
    + intros k c Hk. rewrite Hshape in Hk |- *. simpl app at 1.
      apply lookup_app_Some in Hk as [Hk | [Hge Hk]].
      * exfalso. rewrite Forall_lookup in Hq. apply (Hq _ _ Hk).
      * destruct (k - length evs) as [| [| j]] eqn:Ek; try discriminate Hk.
        injection Hk as <-. split; [| left; reflexivity].
        replace k with (length evs + 1) by lia.
        rewrite take_app_add'; [| reflexivity]. apply elem_of_app. right.
        simpl. apply list_elem_of_singleton. reflexivity.
    + intros [| [| [| k]]] c Hk; try discriminate Hk. injection Hk as <-.
      simpl. split; [| right; left; split; [reflexivity |]].
      * apply elem_of_cons. right. apply elem_of_cons. left. reflexivity.
      * apply elem_of_cons. left. reflexivity.
    + intros [| [| [| k]]] c Hk; try discriminate Hk. injection Hk as <-.
      simpl. split; [| right; right; split; [reflexivity |]].
      * apply elem_of_cons. right. apply elem_of_cons. left. reflexivity.
      * apply elem_of_cons. left. reflexivity.
  - apply process_groups; [reflexivity |].
    intros [| [| [| i]]] th Hi Hth; try contradiction; try discriminate Hth;
      injection Hth as <-; reflexivity.
  - intros n Hn. rewrite Hshape in Hn |- *.
    change [EvDestroy; EvExit (main_status R f s)]
      with ([EvDestroy] ++ [EvExit (main_status R f s)]) in Hn |- *.
    rewrite app_assoc in Hn |- *.
    rewrite length_app in Hn. simpl in Hn.
    assert (Hq' : forall body code others,
              Forall quiet body -> forall m, S (length body) < m ->
              process (replicate m 0) (((body ++ [EvDestroy]) ++ [EvExit code]) :: others)
              = (body ++ [EvDestroy]) ++ [EvExit code]).
    { clear. intros body code others. induction 1 as [| ev body Hev _ IH]; intros m Hm.
      - destruct m as [| [| m]]; try (simpl in Hm; lia). reflexivity.
      - destruct m as [| m]; [simpl in Hm; lia |]. simpl in Hm.
        simpl. rewrite IH by lia.
        destruct ev; simpl in Hev; try contradiction; reflexivity. }
    apply Hq'; [exact Hq |]. rewrite length_app in Hn. simpl in Hn. lia.
Qed.

(** The clone has failed and the cache is being rebuilt when the timeout
    comes: the process ends with status 128, after [Destroy], and the notify
    group is not run. *)
Lemma Destroy_before_exit_timeout :
  process [0; 0; 0; 0; 2; 2; 0; 2] 
    [main_thread clone_fails all_on (false, 0%Z); cancel_thread; timeout_thread]
  = [EvRunNode [NodeCache]; EvRunNode [NodeClone]; EvDebugln (ExitError "clone" 1);
     EvRunNode [NodeCache];
     EvPrintln "Timeout request received, killing process"; EvDestroy;
     EvRunNode [NodeNotify]; EvExit 128] /\
  EvDestroy ∈ [EvRunNode [NodeCache]; EvRunNode [NodeClone];
               EvDebugln (ExitError "clone" 1); EvRunNode [NodeCache];
               EvPrintln "Timeout request received, killing process"; EvDestroy;
               EvRunNode [NodeNotify]].
Proof.
  split; [reflexivity |].
  destruct (Destroy_before_exit clone_fails all_on (false, 0%Z)
              [0; 0; 0; 0; 2; 2; 0; 2]) as (H & _).
  apply (H _ 128%Z). reflexivity.
Defined.


